(** * CoRoutines: a shallow embedding of [CoRoutines/CoRoutines.h]

    The header defines one class template, [CoRoutineT<R, T>], over a C++20
    coroutine handle.  A coroutine frame is modelled as a record holding the
    promise object, the "done" flag of [std::coroutine_handle] and the point
    at which the body is suspended; the body itself is an arbitrary
    transition function from suspension points to what the body does when it
    is resumed there.  Handles ([CoRoutineT] objects) and frames live in an
    explicit memory, so that moving, destroying and aliasing are visible.

    A resumption runs the body up to its next suspension, its end or an
    escaping exception; a body that loops forever inside one resumption is
    outside the model.

    [ASSERT] is U++'s debug assertion; it is modelled as checked
    ([AssertionFailed]).  What the C++ standard leaves undefined (resuming a
    coroutine suspended at its final suspend point, using a null or dangling
    handle) is the outcome [UndefinedBehaviour]. *)

From stdpp Require Import gmap strings list.

Set Default Proof Using "Type".

(** [enum class CoRoutineType { Routine, Generator }] *)
Inductive CoRoutineType : Set := Routine | Generator.

(** [static constexpr const char *errmsg] *)
Definition errmsg : string := "Generator exhausted".

Section CoRoutineT.

(** [St]: the suspension points of a body together with its local state;
    [T]: the template parameter [T]; [E]: what a [std::exception_ptr]
    refers to when it is not null. *)
Context {St T E : Type}.

(** [U value {}]: the value-initialised [T]. *)
Variable default_value : T.

(** What [pick] (U++'s move) leaves behind in the object it moves from. *)
Variable picked : T -> T.

(** ** Bodies *)

(** What the body of a [CoRoutine<T>] does when resumed:
    [co_await CoSuspend{}], [co_return v], or an exception escapes.
    For [CoRoutine<void>] take [T := unit]: [return_void] stores nothing. *)
Inductive RoutineStmt : Type :=
| co_await_CoSuspend (next : St)
| co_return (v : T)
| routine_throw (e : E).

(** What the body of a [CoGenerator<T>] does when resumed: [co_yield v],
    flowing off the end ([return_void]), or an exception escapes.
    [await_transform] is deleted in [CurrentValue], so a generator body
    cannot [co_await]. *)
Inductive GeneratorStmt : Type :=
| co_yield (v : T) (next : St)
| co_return_void
| generator_throw (e : E).

Definition Body (R : CoRoutineType) : Type :=
  match R with
  | Routine => St -> RoutineStmt
  | Generator => St -> GeneratorStmt
  end.

(** ** Promise objects and frames *)

(** [ReturnValue<U>] and [CurrentValue<U>]: [std::exception_ptr exc; U value {};] *)
Record Promise : Type := { exc : option E; value : T }.

Definition return_value (p : Promise) (val : T) : Promise :=
  {| exc := exc p; value := val |}.

Definition yield_value (p : Promise) (val : T) : Promise :=
  {| exc := exc p; value := val |}.

Definition return_void (p : Promise) : Promise := p.

Definition unhandled_exception (p : Promise) (e : E) : Promise :=
  {| exc := Some e; value := value p |}.

Record Frame : Type := { pc : St; done : bool; promise : Promise }.

(** The frame right after the coroutine function was called:
    [initial_suspend] is [std::suspend_always], nothing of the body has run. *)
Definition initial_frame (entry : St) : Frame :=
  {| pc := entry; done := false;
     promise := {| exc := None; value := default_value |} |}.

(** One resumption of a suspended frame.  [final_suspend] is
    [std::suspend_always], so after [co_return], after flowing off the end
    and after [unhandled_exception] the frame stays alive and is done. *)
Definition run (R : CoRoutineType) : Body R -> Frame -> Frame :=
  match R with
  | Routine => fun body f =>
      match body (pc f) with
      | co_await_CoSuspend next =>
          {| pc := next; done := false; promise := promise f |}
      | co_return v =>
          {| pc := pc f; done := true; promise := return_value (promise f) v |}
      | routine_throw e =>
          {| pc := pc f; done := true;
             promise := unhandled_exception (promise f) e |}
      end
  | Generator => fun body f =>
      match body (pc f) with
      | co_yield v next =>
          {| pc := next; done := false; promise := yield_value (promise f) v |}
      | co_return_void =>
          {| pc := pc f; done := true; promise := return_void (promise f) |}
      | generator_throw e =>
          {| pc := pc f; done := true;
             promise := unhandled_exception (promise f) e |}
      end
  end.

(** ** Memory, outcomes and the effect monad *)

(** [frames]: the live coroutine frames by address;
    [handles]: the live [CoRoutineT] objects by address, each with the
    value of its member [co] ([None] is the null handle). *)
Record Memory : Type := {
  frames : gmap nat Frame;
  handles : gmap nat (option nat)
}.

Definition set_frames (g : gmap nat Frame -> gmap nat Frame) (m : Memory) : Memory :=
  {| frames := g (frames m); handles := handles m |}.

Definition set_handles (g : gmap nat (option nat) -> gmap nat (option nat))
    (m : Memory) : Memory :=
  {| frames := frames m; handles := g (handles m) |}.

(** The two statements of the header that throw:
    [Exc msg]: [throw Exc(msg)], in [Next] and [PickNext];
    [rethrow_exception e]: [std::rethrow_exception(exc)], in [Rethrow],
    where [e] is the exception the body threw (which may itself be an
    [Upp::Exc], as in the tests). *)
Inductive Exception : Type :=
| Exc (msg : string)
| rethrow_exception (e : E).

Inductive Outcome (A : Type) : Type :=
| Returned (a : A)
| Thrown (x : Exception)
| AssertionFailed
| UndefinedBehaviour.

Arguments Returned {A} a.
Arguments Thrown {A} x.
Arguments AssertionFailed {A}.
Arguments UndefinedBehaviour {A}.

Definition Eff (A : Type) : Type := Memory -> Outcome A * Memory.

Definition ret {A} (a : A) : Eff A := fun m => (Returned a, m).

Definition bind {A B} (c : Eff A) (k : A -> Eff B) : Eff B :=
  fun m =>
    match c m with
    | (Returned a, m') => k a m'
    | (Thrown x, m') => (Thrown x, m')
    | (AssertionFailed, m') => (AssertionFailed, m')
    | (UndefinedBehaviour, m') => (UndefinedBehaviour, m')
    end.

Definition throw {A} (x : Exception) : Eff A := fun m => (Thrown x, m).

Definition undefined {A} : Eff A := fun m => (UndefinedBehaviour, m).

Definition ASSERT (b : bool) : Eff unit :=
  fun m => if b then (Returned tt, m) else (AssertionFailed, m).

Notation "x <- c1 ;; c2" := (bind c1 (fun x => c2))
  (at level 100, c1 at next level, right associativity).
Notation "c1 ;;; c2" := (bind c1 (fun _ => c2))
  (at level 100, right associativity).

(** ** [std::coroutine_handle] *)

(** The frame a handle value refers to; a null or dangling handle has none. *)
Definition frame_at (co : option nat) : Eff Frame :=
  fun m =>
    match co with
    | Some a =>
        match frames m !! a with
        | Some f => (Returned f, m)
        | None => (UndefinedBehaviour, m)
        end
    | None => (UndefinedBehaviour, m)
    end.

Definition store_frame (co : option nat) (f : Frame) : Eff unit :=
  fun m =>
    match co with
    | Some a => (Returned tt, set_frames <[a := f]> m)
    | None => (UndefinedBehaviour, m)
    end.

(** [co.done()] *)
Definition co_done (co : option nat) : Eff bool :=
  f <- frame_at co ;; ret (done f).

(** [co.promise()] *)
Definition co_promise (co : option nat) : Eff Promise :=
  f <- frame_at co ;; ret (promise f).

(** [co.resume()]: undefined on a frame suspended at its final suspend point. *)
Definition co_resume (R : CoRoutineType) (body : Body R) (co : option nat) : Eff unit :=
  f <- frame_at co ;;
  if done f then undefined else store_frame co (run R body f).

(** [co.destroy()] *)
Definition co_destroy (co : option nat) : Eff unit :=
  _ <- frame_at co ;;
  fun m =>
    match co with
    | Some a => (Returned tt, set_frames (delete a) m)
    | None => (UndefinedBehaviour, m)
    end.

(** ** [CoRoutineT] *)

(** Reading and writing the member [co] of the object at [this]. *)
Definition get_co (this : nat) : Eff (option nat) :=
  fun m =>
    match handles m !! this with
    | Some co => (Returned co, m)
    | None => (UndefinedBehaviour, m)
    end.

Definition set_co (this : nat) (co : option nat) : Eff unit :=
  fun m =>
    match handles m !! this with
    | Some _ => (Returned tt, set_handles <[this := co]> m)
    | None => (UndefinedBehaviour, m)
    end.

(** [bool(co)] *)
Definition non_null (co : option nat) : bool :=
  match co with Some _ => true | None => false end.

(** [void Rethrow() const] *)
Definition Rethrow (this : nat) : Eff unit :=
  co <- get_co this ;;
  p <- co_promise co ;;
  match exc p with
  | Some e => throw (rethrow_exception e)
  | None => ret tt
  end.

(** [bool Do() requires (R == CoRoutineType::Routine)] *)
Definition Do (body : Body Routine) (this : nat) : Eff bool :=
  co <- get_co this ;;
  ASSERT (non_null co) ;;;
  d <- co_done co ;;
  if d then ret false else
  co_resume Routine body co ;;;
  Rethrow this ;;;
  d' <- co_done co ;;
  ret (negb d').

(** [T Get() const requires (R == Routine && !std::is_void_v<T>)] *)
Definition Get (this : nat) : Eff T :=
  co <- get_co this ;;
  ASSERT (non_null co) ;;;
  d <- co_done co ;;
  ASSERT d ;;;
  p <- co_promise co ;;
  ret (value p).

(** [T Pick()]: as [Get], and the stored value is moved from. *)
Definition Pick (this : nat) : Eff T :=
  co <- get_co this ;;
  ASSERT (non_null co) ;;;
  d <- co_done co ;;
  ASSERT d ;;;
  f <- frame_at co ;;
  store_frame co {| pc := pc f; done := done f;
                    promise := {| exc := exc (promise f);
                                  value := picked (value (promise f)) |} |} ;;;
  ret (value (promise f)).

(** [T Next() requires (R == CoRoutineType::Generator)] *)
Definition Next (body : Body Generator) (this : nat) : Eff T :=
  co <- get_co this ;;
  ASSERT (non_null co) ;;;
  d <- co_done co ;;
  if d then throw (Exc errmsg) else
  co_resume Generator body co ;;;
  Rethrow this ;;;
  d' <- co_done co ;;
  if d' then throw (Exc errmsg) else
  p <- co_promise co ;;
  ret (value p).

(** [T PickNext()]: as [Next], and the stored value is moved from. *)
Definition PickNext (body : Body Generator) (this : nat) : Eff T :=
  co <- get_co this ;;
  ASSERT (non_null co) ;;;
  d <- co_done co ;;
  if d then throw (Exc errmsg) else
  co_resume Generator body co ;;;
  Rethrow this ;;;
  d' <- co_done co ;;
  if d' then throw (Exc errmsg) else
  f <- frame_at co ;;
  store_frame co {| pc := pc f; done := done f;
                    promise := {| exc := exc (promise f);
                                  value := picked (value (promise f)) |} |} ;;;
  ret (value (promise f)).

(** Calling a coroutine function: the frame is allocated and suspended at
    its initial suspend point, and [get_return_object] builds the new
    object with [explicit CoRoutineT(Handle h) : co(h)].  The result is the
    address of the new object. *)
Definition call_coroutine (entry : St) : Eff nat :=
  fun m =>
    let a := fresh (dom (frames m)) in
    let this := fresh (dom (handles m)) in
    (Returned this,
     {| frames := <[a := initial_frame entry]> (frames m);
        handles := <[this := Some a]> (handles m) |}).

(** [CoRoutineT(CoRoutineT&& r) noexcept : co(r.co) { r.co = {}; }] *)
Definition move_construct (r : nat) : Eff nat :=
  co <- get_co r ;;
  this <- (fun m => let this := fresh (dom (handles m)) in
                    (Returned this, set_handles <[this := co]> m)) ;;
  set_co r None ;;;
  ret this.

(** [CoRoutineT& operator=(CoRoutineT&& r) noexcept] *)
Definition move_assign (this r : nat) : Eff unit :=
  if bool_decide (this = r) then ret tt else
  co <- get_co this ;;
  (if non_null co then co_destroy co else ret tt) ;;;
  rco <- get_co r ;;
  set_co this rco ;;;
  set_co r None.

(** [~CoRoutineT() noexcept]; the object is gone afterwards. *)
Definition destructor (this : nat) : Eff unit :=
  co <- get_co this ;;
  (if non_null co then co_destroy co else ret tt) ;;;
  fun m => (Returned tt, set_handles (delete this) m).

(** ** [CoRoutineT::Iterator] *)

(** [CoRoutineT* gen = nullptr;] *)
Record Iterator : Type := { gen : option nat }.

(** [explicit Iterator(CoRoutineT* g)] *)
Definition Iterator_ctor (body : Body Generator) (g : option nat) : Eff Iterator :=
  match g with
  | None => ret {| gen := None |}
  | Some this =>
      co <- get_co this ;;
      d <- co_done co ;;
      if negb d then
        co_resume Generator body co ;;;
        Rethrow this ;;;
        d' <- co_done co ;;
        ret {| gen := if d' then None else g |}
      else ret {| gen := g |}
  end.

(** [value_type operator*() const] *)
Definition deref (it : Iterator) : Eff T :=
  ASSERT (non_null (gen it)) ;;;
  match gen it with
  | Some this =>
      co <- get_co this ;;
      p <- co_promise co ;;
      ret (value p)
  | None => undefined
  end.

(** [Iterator& operator++()]; the updated iterator is the result. *)
Definition incr (body : Body Generator) (it : Iterator) : Eff Iterator :=
  match gen it with
  | Some this =>
      co <- get_co this ;;
      co_resume Generator body co ;;;
      Rethrow this ;;;
      d <- co_done co ;;
      ret {| gen := if d then None else gen it |}
  | None => undefined
  end.

(** [bool operator==(std::default_sentinel_t) const] *)
Definition is_end (it : Iterator) : bool := negb (non_null (gen it)).

(** [Iterator begin() requires (R == CoRoutineType::Generator)] *)
Definition begin (body : Body Generator) (this : nat) : Eff Iterator :=
  Iterator_ctor body (Some this).

(** ** Drivers *)

(** [n] successive calls of one operation, each inside [try]/[catch]: the
    outcomes in order.  A failed assertion or undefined behaviour ends the
    program. *)
Fixpoint calls {A} (op : Eff A) (n : nat) (m : Memory) : list (Outcome A) * Memory :=
  match n with
  | 0 => ([], m)
  | S k =>
      match op m with
      | (AssertionFailed, m') => ([AssertionFailed], m')
      | (UndefinedBehaviour, m') => ([UndefinedBehaviour], m')
      | (o, m') => let '(os, m'') := calls op k m' in (o :: os, m'')
      end
  end.

(** How the consumption of a generator ended. *)
Inductive Ending : Type :=
| LoopEnded
| Escaped (x : Exception)
| Asserted
| WentUndefined
| FuelSpent.

(** [for(;;) consume(g.Next());]: the values consumed until something
    escapes.  [fuel] bounds the number of resumptions. *)
Fixpoint drain_Next (body : Body Generator) (this : nat) (fuel : nat) (m : Memory)
    : list T * Ending * Memory :=
  match fuel with
  | 0 => ([], FuelSpent, m)
  | S k =>
      match Next body this m with
      | (Returned v, m') =>
          let '(vs, e, m'') := drain_Next body this k m' in (v :: vs, e, m'')
      | (Thrown x, m') => ([], Escaped x, m')
      | (AssertionFailed, m') => ([], Asserted, m')
      | (UndefinedBehaviour, m') => ([], WentUndefined, m')
      end
  end.

(** [for(; it != end(); ++it) consume( *it );] *)
Fixpoint range_loop (body : Body Generator) (it : Iterator) (fuel : nat) (m : Memory)
    {struct fuel} : list T * Ending * Memory :=
  if is_end it then ([], LoopEnded, m) else
  match deref it m with
  | (Returned v, m1) =>
      match fuel with
      | 0 => ([v], FuelSpent, m1)
      | S k =>
          match incr body it m1 with
          | (Returned it', m2) =>
              let '(vs, e, m3) := range_loop body it' k m2 in (v :: vs, e, m3)
          | (Thrown x, m2) => ([v], Escaped x, m2)
          | (AssertionFailed, m2) => ([v], Asserted, m2)
          | (UndefinedBehaviour, m2) => ([v], WentUndefined, m2)
          end
      end
  | (Thrown x, m1) => ([], Escaped x, m1)
  | (AssertionFailed, m1) => ([], Asserted, m1)
  | (UndefinedBehaviour, m1) => ([], WentUndefined, m1)
  end.

(** [for(T v : g) consume(v);] *)
Definition range_for (body : Body Generator) (this : nat) (fuel : nat) (m : Memory)
    : list T * Ending * Memory :=
  match fuel with
  | 0 => ([], FuelSpent, m)
  | S k =>
      match begin body this m with
      | (Returned it, m1) => range_loop body it k m1
      | (Thrown x, m1) => ([], Escaped x, m1)
      | (AssertionFailed, m1) => ([], Asserted, m1)
      | (UndefinedBehaviour, m1) => ([], WentUndefined, m1)
      end
  end.

(** The operations of the interface that look at [co.done()] before they
    touch the frame, as requests of a caller who ignores the answers. *)
Inductive Request : Type :=
| req_Do | req_Get | req_Pick | req_Next | req_PickNext | req_begin | req_deref.

Definition serve (rbody : Body Routine) (gbody : Body Generator) (this : nat)
    (q : Request) : Eff unit :=
  match q with
  | req_Do => _ <- Do rbody this ;; ret tt
  | req_Get => _ <- Get this ;; ret tt
  | req_Pick => _ <- Pick this ;; ret tt
  | req_Next => _ <- Next gbody this ;; ret tt
  | req_PickNext => _ <- PickNext gbody this ;; ret tt
  | req_begin => _ <- begin gbody this ;; ret tt
  | req_deref => _ <- deref {| gen := Some this |} ;; ret tt
  end.

(** A list of operations one after the other, each inside [try]/[catch]. *)
Fixpoint perform (ops : list (Eff unit)) (m : Memory) : list (Outcome unit) * Memory :=
  match ops with
  | [] => ([], m)
  | op :: ops' =>
      match op m with
      | (AssertionFailed, m') => ([AssertionFailed], m')
      | (UndefinedBehaviour, m') => ([UndefinedBehaviour], m')
      | (o, m') => let '(os, m'') := perform ops' m' in (o :: os, m'')
      end
  end.

(** ** Vocabulary of the properties *)

(** The object at [this] holds a handle to the live frame [f] at [a]. *)
Definition owns (m : Memory) (this a : nat) (f : Frame) : Prop :=
  handles m !! this = Some (Some a) /\ frames m !! a = Some f.

(** The object at [this] is empty (moved from). *)
Definition empty_handle (m : Memory) (this : nat) : Prop :=
  handles m !! this = Some None.

(** Not yet terminated: not done, and no exception captured. *)
Definition suspended (f : Frame) : Prop :=
  done f = false /\ exc (promise f) = None.

(** Terminated, normally or by a captured exception. *)
Definition terminated (m : Memory) (this : nat) : Prop :=
  exists a f, owns m this a f /\ done f = true.

(** Resumed at [s], the generator body yields the values [vs] in order, one
    per resumption, and on the next resumption does [last]. *)
Fixpoint yields_then (body : Body Generator) (s : St) (vs : list T)
    (last : GeneratorStmt) : Prop :=
  match vs with
  | [] => body s = last
  | v :: vs' =>
      match body s with
      | co_yield v' next => v' = v /\ yields_then body next vs' last
      | _ => False
      end
  end.

(** Resumed at [s], the routine body suspends [k] times and on the next
    resumption does [last]. *)
Fixpoint suspends_then (body : Body Routine) (s : St) (k : nat)
    (last : RoutineStmt) : Prop :=
  match k with
  | 0 => body s = last
  | S k' =>
      match body s with
      | co_await_CoSuspend next => suspends_then body next k' last
      | _ => False
      end
  end.

(** The end of a range-for that corresponds to an end of the [Next] loop:
    where [Next] throws [Exc], the range-for just ends. *)
Definition silent (e : Ending) : Ending :=
  match e with
  | Escaped (Exc _) => LoopEnded
  | _ => e
  end.

(** What escapes from the call of [Next] that finds the body doing [last]
    instead of yielding. *)
Definition escapes (last : GeneratorStmt) : Exception :=
  match last with
  | generator_throw e => rethrow_exception e
  | _ => Exc errmsg
  end.

(** What a range-for reports where the [Next] loop reports [r]. *)
Definition as_range_for (r : list T * Ending * Memory) : list T * Ending * Memory :=
  (r.1.1, silent r.1.2, r.2).

(** ** The rest of the interface *)

(** [Iterator() = default;] *)
Definition Iterator_default : Iterator := {| gen := None |}.

(** [bool operator!=(std::default_sentinel_t s) const] *)
Definition not_end (it : Iterator) : bool := negb (is_end it).

(** Every operation that drives or reads the coroutine of one object, the
    iterator operations on an iterator that points to it included, as
    requests of a caller who ignores the answers. *)
Inductive Operation : Type :=
| op_Do | op_Get | op_Pick | op_Next | op_PickNext
| op_begin | op_deref | op_incr.

Definition operate (rbody : Body Routine) (gbody : Body Generator) (this : nat)
    (o : Operation) : Eff unit :=
  match o with
  | op_Do => _ <- Do rbody this ;; ret tt
  | op_Get => _ <- Get this ;; ret tt
  | op_Pick => _ <- Pick this ;; ret tt
  | op_Next => _ <- Next gbody this ;; ret tt
  | op_PickNext => _ <- PickNext gbody this ;; ret tt
  | op_begin => _ <- begin gbody this ;; ret tt
  | op_deref => _ <- deref {| gen := Some this |} ;; ret tt
  | op_incr => _ <- incr gbody {| gen := Some this |} ;; ret tt
  end.

(** Operations with answers of one type, one after the other, each inside
    [try]/[catch]. *)
Fixpoint one_by_one {A} (ops : list (Eff A)) (m : Memory) : list (Outcome A) * Memory :=
  match ops with
  | [] => ([], m)
  | op :: ops' =>
      match op m with
      | (AssertionFailed, m') => ([AssertionFailed], m')
      | (UndefinedBehaviour, m') => ([UndefinedBehaviour], m')
      | (o, m') => let '(os, m'') := one_by_one ops' m' in (o :: os, m'')
      end
  end.

(** ** Vocabulary of the memory invariants *)

(** Exclusive ownership: a handle that is not null refers to a live frame,
    no two objects hold the same handle, and every live frame is held. *)
Definition well_owned (m : Memory) : Prop :=
  (forall h a, handles m !! h = Some (Some a) -> is_Some (frames m !! a))
  /\ (forall h1 h2 a, handles m !! h1 = Some (Some a) ->
                      handles m !! h2 = Some (Some a) -> h1 = h2)
  /\ (forall a, is_Some (frames m !! a) -> exists h, handles m !! h = Some (Some a)).

(** Every live frame is suspended or done. *)
Definition consistent (m : Memory) : Prop :=
  forall a f, frames m !! a = Some f -> suspended f \/ done f = true.

(** From [m] to [m'] the objects are the same, the same frames are alive,
    and only the frame that [this] holds may differ. *)
Definition touches_only (this : nat) (m m' : Memory) : Prop :=
  handles m' = handles m
  /\ dom (frames m') = dom (frames m)
  /\ forall b, handles m !! this <> Some (Some b) -> frames m' !! b = frames m !! b.

(** Two frames at the same point of the same body: they differ in the
    stored value at most. *)
Definition same_point (f1 f2 : Frame) : Prop :=
  pc f1 = pc f2 /\ done f1 = done f2 /\ exc (promise f1) = exc (promise f2).

(** [f'] is what an operation can make of [f]: it resumes [f] at most once,
    and may move the stored value out. *)
Definition advanced (rbody : Body Routine) (gbody : Body Generator)
    (f f' : Frame) : Prop :=
  exists g,
    (g = f \/ (done f = false
               /\ (g = run Routine rbody f \/ g = run Generator gbody f)))
    /\ same_point f' g.

(** The memory an operation on [this] leaves: the one it found, or that
    one with the frame of [this] advanced. *)
Definition effect_of (rbody : Body Routine) (gbody : Body Generator)
    (this : nat) (m m' : Memory) : Prop :=
  m' = m
  \/ exists a f f', owns m this a f /\ m' = set_frames <[a := f']> m
                    /\ advanced rbody gbody f f'.

End CoRoutineT.

Arguments Returned {E A} a.
Arguments Thrown {E A} x.
Arguments AssertionFailed {E A}.
Arguments UndefinedBehaviour {E A}.
Arguments Exc {E} msg.
Arguments run : simpl never.
Arguments frame_at : simpl never.
Arguments get_co : simpl never.

(** ** The coroutines of [autotest/CoRoutines/CoRoutines.cpp]

    [T] is [int], a captured exception is represented by its message, and
    moving an [int] leaves it as it was. *)
Module Autotest.

Definition empty_memory : @Memory nat Z string :=
  {| frames := ∅; handles := ∅ |}.

(** [CoRoutine<int> SimpleRoutine() { co_return 42; }] *)
Definition SimpleRoutine : @Body nat Z string Routine :=
  fun _ => co_return 42%Z.

(** [co_await CoSuspend{}; co_await CoSuspend{}; co_return 7;] *)
Definition StepRoutine : @Body nat Z string Routine :=
  fun s =>
    match s with
    | 0 => co_await_CoSuspend 1
    | 1 => co_await_CoSuspend 2
    | _ => co_return 7%Z
    end.

(** [co_await CoSuspend{}; throw Exc("boom");] *)
Definition ThrowRoutine : @Body nat Z string Routine :=
  fun s =>
    match s with
    | 0 => co_await_CoSuspend 1
    | _ => routine_throw "boom"
    end.

(** [co_yield 1; co_yield 2; co_yield 3;] *)
Definition SimpleGenerator : @Body nat Z string Generator :=
  fun s =>
    match s with
    | 0 => co_yield 1%Z 1
    | 1 => co_yield 2%Z 2
    | 2 => co_yield 3%Z 3
    | _ => co_return_void
    end.

(** [for(int i = 0; i < n; i++) co_yield i;]  The state is [i]. *)
Definition RangeGenerator (n : nat) : @Body nat Z string Generator :=
  fun i => if i <? n then co_yield (Z.of_nat i) (S i) else co_return_void.

(** [co_yield 1; throw Exc("gen boom");] *)
Definition ThrowGenerator : @Body nat Z string Generator :=
  fun s =>
    match s with
    | 0 => co_yield 1%Z 1
    | _ => generator_throw "gen boom"
    end.

(** The memory after [auto r = F();] in an empty memory: the object [r] is
    at address 0 and its frame at address 0, whatever the coroutine [F]. *)
Definition created : @Memory nat Z string :=
  (call_coroutine 0%Z 0 empty_memory).2.

(** The memory after [auto r1 = F(); auto r2 = G();]: [r2] is at address 1
    and its frame at address 1. *)
Definition created_two : @Memory nat Z string :=
  (call_coroutine 0%Z 0 created).2.

(** [RangeGenerator(1)] consumed to its end by a range-for. *)
Definition iterated_once : @Memory nat Z string :=
  (range_for (RangeGenerator 1) 0 5 created).2.

(** [ThrowRoutine] driven until its body has thrown. *)
Definition routine_failed : @Memory nat Z string :=
  (calls (Do ThrowRoutine 0) 2 created).2.

(** [auto it = g.begin();] on a new [RangeGenerator(1)], and then
    [g.Next()], which finds the body at its end. *)
Definition primed : @Memory nat Z string :=
  (begin (RangeGenerator 1) 0 created).2.

Definition primed_then_exhausted : @Memory nat Z string :=
  (Next (RangeGenerator 1) 0 primed).2.

(** [auto r2 = pick(r1);] the new object [r2] is at address 1. *)
Definition moved : @Memory nat Z string :=
  (move_construct 0 created).2.

End Autotest.

(** * Properties *)

Section Properties.

Context {St T E : Type}.
Variable default_value : T.
Variable picked : T -> T.

Abbreviation Memory := (@Memory St T E).
Abbreviation Frame := (@Frame St T E).

Implicit Types (m : Memory) (f : Frame) (this a r : nat).

(** ** Evaluation of the primitives *)

Lemma owns_put m this a f f' :
  owns m this a f -> owns (set_frames <[a := f']> m) this a f'.
Proof.
  intros [Hh Hf]. split; simpl; [exact Hh | apply lookup_insert_eq].
Qed.

Lemma get_co_owns m this a f :
  owns m this a f -> get_co this m = (Returned (Some a), m).
Proof. intros [Hh _]. unfold get_co. now rewrite Hh. Qed.

Lemma frame_at_owns m this a f :
  owns m this a f -> frame_at (Some a) m = (Returned f, m).
Proof. intros [_ Hf]. unfold frame_at. now rewrite Hf. Qed.

Lemma co_done_owns m this a f :
  owns m this a f -> co_done (Some a) m = (Returned (done f), m).
Proof. intros H. unfold co_done, bind. now rewrite (frame_at_owns _ _ _ _ H). Qed.

Lemma co_promise_owns m this a f :
  owns m this a f -> co_promise (Some a) m = (Returned (promise f), m).
Proof. intros H. unfold co_promise, bind. now rewrite (frame_at_owns _ _ _ _ H). Qed.

Lemma co_resume_owns R (body : Body R) m this a f :
  owns m this a f ->
  co_resume R body (Some a) m =
    if done f then (UndefinedBehaviour, m)
    else (Returned tt, set_frames <[a := run R body f]> m).
Proof.
  intros H. unfold co_resume, bind. rewrite (frame_at_owns _ _ _ _ H).
  now destruct (done f).
Qed.

Lemma Rethrow_owns m this a f :
  owns m this a f ->
  Rethrow this m =
    match exc (promise f) with
    | Some e => (Thrown (rethrow_exception e), m)
    | None => (Returned tt, m)
    end.
Proof.
  intros H. unfold Rethrow, bind.
  rewrite (get_co_owns _ _ _ _ H), (co_promise_owns _ _ _ _ H).
  now destruct (exc (promise f)).
Qed.

(** Rewrites an effectful operation on an owned handle down to its result. *)
Ltac eval_owned H :=
  simpl;
  repeat (first
    [ rewrite (get_co_owns _ _ _ _ H)
    | rewrite (co_done_owns _ _ _ _ H)
    | rewrite (co_promise_owns _ _ _ _ H)
    | rewrite (frame_at_owns _ _ _ _ H)
    | rewrite (co_resume_owns _ _ _ _ _ _ H)
    | rewrite (Rethrow_owns _ _ _ _ H) ];
    simpl).

(** ** The routine interface on an owned handle *)

Lemma Do_done (body : Body Routine) m this a f :
  owns m this a f -> done f = true -> Do body this m = (Returned false, m).
Proof.
  intros H Hd. unfold Do, bind. eval_owned H. now rewrite Hd.
Qed.

Lemma Do_resumes (body : Body Routine) m this a f :
  owns m this a f -> done f = false ->
  Do body this m =
    (match exc (promise (run Routine body f)) with
     | Some e => Thrown (rethrow_exception e)
     | None => Returned (negb (done (run Routine body f)))
     end, set_frames <[a := run Routine body f]> m).
Proof.
  intros H Hd. unfold Do, bind. eval_owned H. rewrite Hd. eval_owned H. rewrite Hd. simpl.
  pose proof (owns_put _ _ _ _ (run Routine body f) H) as H'.
  eval_owned H'. destruct (exc (promise (run Routine body f))); [reflexivity|].
  now eval_owned H'.
Qed.

Lemma Get_owned m this a f :
  owns m this a f ->
  Get this m = (if done f then Returned (value (promise f)) else AssertionFailed, m).
Proof.
  intros H. unfold Get, bind. eval_owned H. destruct (done f); simpl; [|reflexivity].
  now eval_owned H.
Qed.

Lemma Pick_owned m this a f :
  owns m this a f ->
  Pick picked this m =
    if done f
    then (Returned (value (promise f)),
          set_frames <[a := {| pc := pc f; done := done f;
                               promise := {| exc := exc (promise f);
                                             value := picked (value (promise f)) |} |}]> m)
    else (AssertionFailed, m).
Proof.
  intros H. unfold Pick, bind. eval_owned H.
  destruct (done f) eqn:Hd; simpl; [|reflexivity].
  eval_owned H. now rewrite Hd.
Qed.

(** ** The generator interface on an owned handle *)

Lemma Next_done (body : Body Generator) m this a f :
  owns m this a f -> done f = true -> Next body this m = (Thrown (Exc errmsg), m).
Proof.
  intros H Hd. unfold Next, bind. eval_owned H. now rewrite Hd.
Qed.

Lemma Next_resumes (body : Body Generator) m this a f :
  owns m this a f -> done f = false ->
  Next body this m =
    (match exc (promise (run Generator body f)) with
     | Some e => Thrown (rethrow_exception e)
     | None => if done (run Generator body f) then Thrown (Exc errmsg)
               else Returned (value (promise (run Generator body f)))
     end, set_frames <[a := run Generator body f]> m).
Proof.
  intros H Hd. unfold Next, bind. eval_owned H. rewrite Hd. eval_owned H. rewrite Hd. simpl.
  pose proof (owns_put _ _ _ _ (run Generator body f) H) as H'.
  eval_owned H'. destruct (exc (promise (run Generator body f))); [reflexivity|].
  eval_owned H'. destruct (done (run Generator body f)); [reflexivity|].
  now eval_owned H'.
Qed.

Lemma PickNext_done (body : Body Generator) m this a f :
  owns m this a f -> done f = true ->
  PickNext picked body this m = (Thrown (Exc errmsg), m).
Proof.
  intros H Hd. unfold PickNext, bind. eval_owned H. now rewrite Hd.
Qed.

Lemma PickNext_resumes (body : Body Generator) m this a f :
  owns m this a f -> done f = false ->
  let f' := run Generator body f in
  PickNext picked body this m =
    match exc (promise f') with
    | Some e => (Thrown (rethrow_exception e), set_frames <[a := f']> m)
    | None =>
        if done f' then (Thrown (Exc errmsg), set_frames <[a := f']> m)
        else (Returned (value (promise f')),
              set_frames <[a := {| pc := pc f'; done := done f';
                                   promise := {| exc := exc (promise f');
                                                 value := picked (value (promise f')) |} |}]>
                (set_frames <[a := f']> m))
    end.
Proof.
  intros H Hd f'. unfold PickNext, bind. eval_owned H. rewrite Hd. eval_owned H. rewrite Hd. simpl.
  pose proof (owns_put _ _ _ _ f' H) as H'. fold f'.
  eval_owned H'. destruct (exc (promise f')) eqn:He; [reflexivity|].
  eval_owned H'. destruct (done f') eqn:Hd'; [reflexivity|].
  eval_owned H'. now rewrite Hd', He.
Qed.

(** ** The iterator on an owned handle *)

Lemma begin_done (body : Body Generator) m this a f :
  owns m this a f -> done f = true ->
  begin body this m = (Returned {| gen := Some this |}, m).
Proof.
  intros H Hd. unfold begin, Iterator_ctor, bind. eval_owned H. now rewrite Hd.
Qed.

Lemma begin_resumes (body : Body Generator) m this a f :
  owns m this a f -> done f = false ->
  let f' := run Generator body f in
  begin body this m =
    (match exc (promise f') with
     | Some e => Thrown (rethrow_exception e)
     | None => Returned {| gen := if done f' then None else Some this |}
     end, set_frames <[a := f']> m).
Proof.
  intros H Hd f'. unfold begin, Iterator_ctor, bind. eval_owned H. rewrite Hd. eval_owned H. rewrite Hd. simpl.
  pose proof (owns_put _ _ _ _ f' H) as H'. fold f'.
  eval_owned H'. destruct (exc (promise f')); [reflexivity|].
  now eval_owned H'.
Qed.

Lemma incr_owned (body : Body Generator) m this a f :
  owns m this a f ->
  let f' := run Generator body f in
  incr body {| gen := Some this |} m =
    if done f then (UndefinedBehaviour, m)
    else (match exc (promise f') with
          | Some e => Thrown (rethrow_exception e)
          | None => Returned {| gen := if done f' then None else Some this |}
          end, set_frames <[a := f']> m).
Proof.
  intros H f'. unfold incr, bind. simpl. eval_owned H.
  destruct (done f); [reflexivity|]. simpl.
  pose proof (owns_put _ _ _ _ f' H) as H'. fold f'.
  eval_owned H'. destruct (exc (promise f')); [reflexivity|].
  now eval_owned H'.
Qed.

Lemma deref_owned m this a f :
  owns m this a f ->
  deref {| gen := Some this |} m = (Returned (value (promise f)), m).
Proof.
  intros H. unfold deref, bind. simpl. now eval_owned H.
Qed.

(** ** One resumption, case by case *)

Lemma run_co_yield (body : Body Generator) f v next :
  body (pc f) = co_yield v next ->
  run Generator body f =
    {| pc := next; done := false; promise := yield_value (promise f) v |}.
Proof. intros Hb. unfold run. now rewrite Hb. Qed.

Lemma run_co_return_void (body : Body Generator) f :
  body (pc f) = co_return_void ->
  run Generator body f = {| pc := pc f; done := true; promise := promise f |}.
Proof. intros Hb. unfold run. now rewrite Hb. Qed.

Lemma run_generator_throw (body : Body Generator) f e :
  body (pc f) = generator_throw e ->
  run Generator body f =
    {| pc := pc f; done := true; promise := unhandled_exception (promise f) e |}.
Proof. intros Hb. unfold run. now rewrite Hb. Qed.

Lemma run_co_await (body : Body Routine) f next :
  body (pc f) = co_await_CoSuspend next ->
  run Routine body f = {| pc := next; done := false; promise := promise f |}.
Proof. intros Hb. unfold run. now rewrite Hb. Qed.

Lemma run_co_return (body : Body Routine) f v :
  body (pc f) = co_return v ->
  run Routine body f =
    {| pc := pc f; done := true; promise := return_value (promise f) v |}.
Proof. intros Hb. unfold run. now rewrite Hb. Qed.

Lemma run_routine_throw (body : Body Routine) f e :
  body (pc f) = routine_throw e ->
  run Routine body f =
    {| pc := pc f; done := true; promise := unhandled_exception (promise f) e |}.
Proof. intros Hb. unfold run. now rewrite Hb. Qed.

(** A frame is either suspended or done, from its creation on: an
    exception is captured only by the resumption that ends the body. *)
Lemma initial_frame_suspended (entry : St) :
  suspended (initial_frame (E := E) default_value entry).
Proof. now split. Qed.

Lemma run_suspended_or_done R (body : Body R) f :
  suspended f -> suspended (run R body f) \/ done (run R body f) = true.
Proof.
  intros [Hd He]. unfold suspended, run.
  destruct R; destruct (body (pc f)); simpl; auto.
Qed.

(** ** Successive calls *)

Lemma calls_Returned {A} (op : Eff A) n m v m' :
  op m = (Returned v, m') ->
  calls op (S n) m = (Returned v :: (calls op n m').1, (calls op n m').2).
Proof. intros Hop. simpl. rewrite Hop. now destruct (calls op n m'). Qed.

Lemma calls_Thrown {A} (op : Eff A) n m x m' :
  op m = (Thrown x, m') ->
  calls op (S n) m = (Thrown x :: (calls op n m').1, (calls op n m').2).
Proof. intros Hop. simpl. rewrite Hop. now destruct (calls op n m'). Qed.

Lemma calls_fixed {A} (op : Eff A) n m o :
  op m = (o, m) -> o <> AssertionFailed -> o <> UndefinedBehaviour ->
  calls op n m = (repeat o n, m).
Proof.
  intros Hop Ha Hu. induction n as [|n IH]; [reflexivity|].
  simpl. rewrite Hop, IH. now destruct o.
Qed.

Lemma calls_app {A} (op : Eff A) n k m :
  Forall (fun o => o <> AssertionFailed /\ o <> UndefinedBehaviour) (calls op n m).1 ->
  calls op (n + k) m =
    ((calls op n m).1 ++ (calls op k (calls op n m).2).1,
     (calls op k (calls op n m).2).2).
Proof.
  revert m. induction n as [|n IH]; intros m Hok; simpl.
  - now destruct (calls op k m).
  - simpl in Hok. destruct (op m) as [o m'] eqn:Hop.
    destruct o; simpl in *.
    + destruct (calls op n m') as [os m''] eqn:Hc. simpl in *.
      apply Forall_cons in Hok as [_ Hok].
      specialize (IH m'). rewrite Hc in IH. simpl in IH. rewrite (IH Hok).
      reflexivity.
    + destruct (calls op n m') as [os m''] eqn:Hc. simpl in *.
      apply Forall_cons in Hok as [_ Hok].
      specialize (IH m'). rewrite Hc in IH. simpl in IH. rewrite (IH Hok).
      reflexivity.
    + apply Forall_cons in Hok as [[Hok _] _]. congruence.
    + apply Forall_cons in Hok as [[_ Hok] _]. congruence.
Qed.

(** ** Creation *)

Lemma call_coroutine_owns (entry : St) m this m0 :
  call_coroutine default_value entry m = (Returned this, m0) ->
  exists a, owns m0 this a (initial_frame default_value entry).
Proof.
  unfold call_coroutine. intros [= <- <-].
  exists (fresh (dom (frames m))). split; simpl; apply lookup_insert_eq.
Qed.

(** ** Generators driven by [Next] *)

Lemma calls_Next_done (body : Body Generator) n m this a f :
  owns m this a f -> done f = true ->
  calls (Next body this) n m = (repeat (Thrown (Exc errmsg)) n, m).
Proof.
  intros H Hd. apply calls_fixed; [|discriminate..].
  exact (Next_done body _ _ _ _ H Hd).
Qed.

Lemma Next_co_yield (body : Body Generator) m this a f v next :
  owns m this a f -> suspended f -> body (pc f) = co_yield v next ->
  Next body this m = (Returned v, set_frames <[a := run Generator body f]> m)
  /\ suspended (run Generator body f) /\ pc (run Generator body f) = next
  /\ value (promise (run Generator body f)) = v.
Proof.
  intros H [Hd He] Hb. rewrite (Next_resumes body _ _ _ _ H Hd).
  rewrite (run_co_yield body f v next Hb). simpl. rewrite He. repeat split.
  exact He.
Qed.

Lemma Next_co_return_void (body : Body Generator) m this a f :
  owns m this a f -> suspended f -> body (pc f) = co_return_void ->
  Next body this m = (Thrown (Exc errmsg), set_frames <[a := run Generator body f]> m)
  /\ done (run Generator body f) = true.
Proof.
  intros H [Hd He] Hb. rewrite (Next_resumes body _ _ _ _ H Hd).
  rewrite (run_co_return_void body f Hb). simpl. now rewrite He.
Qed.

Lemma Next_generator_throw (body : Body Generator) m this a f e :
  owns m this a f -> suspended f -> body (pc f) = generator_throw e ->
  Next body this m =
    (Thrown (rethrow_exception e), set_frames <[a := run Generator body f]> m)
  /\ done (run Generator body f) = true.
Proof.
  intros H [Hd He] Hb. rewrite (Next_resumes body _ _ _ _ H Hd).
  now rewrite (run_generator_throw body f e Hb).
Qed.

(** The calls that deliver the yielded values, and the frame they leave. *)
Lemma calls_Next_yields (body : Body Generator) vs last :
  forall m this a f,
    owns m this a f -> suspended f -> yields_then body (pc f) vs last ->
    exists m' f',
      calls (Next body this) (length vs) m = (map Returned vs, m')
      /\ owns m' this a f' /\ suspended f' /\ body (pc f') = last.
Proof.
  induction vs as [|v vs IH]; intros m this a f H Hs Hy; simpl in Hy.
  - exists m, f. simpl. auto.
  - destruct (body (pc f)) as [v' next| |] eqn:Hb; try contradiction.
    destruct Hy as [-> Hy].
    destruct (Next_co_yield body _ _ _ _ _ _ H Hs Hb) as (HN & Hs' & Hpc & _).
    rewrite <- Hpc in Hy.
    destruct (IH _ _ _ _ (owns_put _ _ _ _ _ H) Hs' Hy) as (m' & f' & Hc & Ho & Hsf & Hl).
    exists m', f'. split; [|auto].
    change (length (v :: vs)) with (S (length vs)).
    rewrite (calls_Returned _ _ _ _ _ HN), Hc. reflexivity.
Qed.

Lemma all_Returned_ok {A} (vs : list A) :
  Forall (fun o : Outcome A => o <> AssertionFailed /\ o <> UndefinedBehaviour)
         (map (Returned (E := E)) vs).
Proof. induction vs; constructor; auto. Qed.

Lemma calls_Next_exhausts (body : Body Generator) vs k m this a f :
  owns m this a f -> suspended f -> yields_then body (pc f) vs co_return_void ->
  (calls (Next body this) (length vs + k) m).1
    = map Returned vs ++ repeat (Thrown (Exc errmsg)) k.
Proof.
  intros H Hs Hy.
  destruct (calls_Next_yields body vs _ _ _ _ _ H Hs Hy) as (m' & f' & Hc & Ho & Hsf & Hl).
  rewrite calls_app; rewrite Hc; simpl; [|apply all_Returned_ok].
  f_equal. destruct k as [|k]; [reflexivity|].
  destruct (Next_co_return_void body _ _ _ _ Ho Hsf Hl) as [HN Hd].
  rewrite (calls_Thrown _ _ _ _ _ HN). simpl.
  now rewrite (calls_Next_done body k _ _ _ _ (owns_put _ _ _ _ _ Ho) Hd).
Qed.

(** C1: a generator whose body yields [vs] (= v1, ..., vn) in order and then
    completes answers the first n calls of [Next] with v1, ..., vn in that
    order, and every later call (the (n+1)-th and the [k - 1] after it, for
    any [k]) throws [Exc(errmsg)]: exhaustion never reverts. *)
Theorem C1_Next_returns_yields_then_stays_exhausted
    (body : Body Generator) (entry : St) (vs : list T) (k : nat) m this m0 :
  yields_then body entry vs co_return_void ->
  call_coroutine default_value entry m = (Returned this, m0) ->
  (calls (Next body this) (length vs + k) m0).1
    = map Returned vs ++ repeat (Thrown (Exc errmsg)) k.
Proof.
  intros Hy Hc. destruct (call_coroutine_owns _ _ _ _ Hc) as [a H].
  apply (calls_Next_exhausts body vs k _ _ _ _ H); [apply initial_frame_suspended|].
  exact Hy.
Qed.

(** ** Routines driven by [Do] *)

Lemma calls_Do_done (body : Body Routine) n m this a f :
  owns m this a f -> done f = true ->
  calls (Do body this) n m = (repeat (Returned false) n, m).
Proof.
  intros H Hd. apply calls_fixed; [|discriminate..].
  exact (Do_done body _ _ _ _ H Hd).
Qed.

Lemma Do_co_await (body : Body Routine) m this a f next :
  owns m this a f -> suspended f -> body (pc f) = co_await_CoSuspend next ->
  Do body this m = (Returned true, set_frames <[a := run Routine body f]> m)
  /\ suspended (run Routine body f) /\ pc (run Routine body f) = next
  /\ value (promise (run Routine body f)) = value (promise f).
Proof.
  intros H [Hd He] Hb. rewrite (Do_resumes body _ _ _ _ H Hd).
  rewrite (run_co_await body f next Hb). simpl. rewrite He. repeat split.
  exact He.
Qed.

Lemma Do_co_return (body : Body Routine) m this a f v :
  owns m this a f -> suspended f -> body (pc f) = co_return v ->
  Do body this m = (Returned false, set_frames <[a := run Routine body f]> m)
  /\ done (run Routine body f) = true
  /\ value (promise (run Routine body f)) = v.
Proof.
  intros H [Hd He] Hb. rewrite (Do_resumes body _ _ _ _ H Hd).
  rewrite (run_co_return body f v Hb). simpl. now rewrite He.
Qed.

Lemma Do_routine_throw (body : Body Routine) m this a f e :
  owns m this a f -> suspended f -> body (pc f) = routine_throw e ->
  Do body this m =
    (Thrown (rethrow_exception e), set_frames <[a := run Routine body f]> m)
  /\ done (run Routine body f) = true
  /\ value (promise (run Routine body f)) = value (promise f).
Proof.
  intros H [Hd He] Hb. rewrite (Do_resumes body _ _ _ _ H Hd).
  now rewrite (run_routine_throw body f e Hb).
Qed.

(** The first [i] of [k] suspensions: [i] calls return [true] and leave the
    frame suspended, with [k - i] suspensions to go and its value untouched. *)
Lemma calls_Do_suspends (body : Body Routine) last i :
  forall k m this a f,
    owns m this a f -> suspended f -> suspends_then body (pc f) k last ->
    i <= k ->
    exists m' f',
      calls (Do body this) i m = (repeat (Returned true) i, m')
      /\ owns m' this a f' /\ suspended f'
      /\ suspends_then body (pc f') (k - i) last
      /\ value (promise f') = value (promise f).
Proof.
  induction i as [|i IH]; intros k m this a f H Hs Hk Hle.
  - exists m, f. rewrite Nat.sub_0_r. simpl. auto.
  - destruct k as [|k]; [lia|]. simpl in Hk.
    destruct (body (pc f)) as [next| |] eqn:Hb; try contradiction.
    destruct (Do_co_await body _ _ _ _ _ H Hs Hb) as (HD & Hs' & Hpc & Hv).
    rewrite <- Hpc in Hk.
    destruct (IH k _ _ _ _ (owns_put _ _ _ _ _ H) Hs' Hk ltac:(lia))
      as (m' & f' & Hc & Ho & Hsf & Hl & Hv').
    exists m', f'. split; [|rewrite Hv', Hv; auto].
    rewrite (calls_Returned _ _ _ _ _ HD), Hc. reflexivity.
Qed.

Lemma all_true_ok n :
  Forall (fun o : Outcome bool => o <> AssertionFailed /\ o <> UndefinedBehaviour)
         (repeat (Returned (E := E) true) n).
Proof. induction n; constructor; auto. Qed.

(** After [k] suspensions and the return of [v]: what [k + S j] calls of
    [Do] answer, and the terminated frame they leave. *)
Lemma calls_Do_returns (body : Body Routine) k v j m this a f :
  owns m this a f -> suspended f -> suspends_then body (pc f) k (co_return v) ->
  exists m' f',
    calls (Do body this) (k + S j) m
      = (repeat (Returned true) k ++ repeat (Returned false) (S j), m')
    /\ owns m' this a f' /\ done f' = true /\ value (promise f') = v.
Proof.
  intros H Hs Hk.
  destruct (calls_Do_suspends body _ k k _ _ _ _ H Hs Hk (le_n k))
    as (m' & f' & Hc & Ho & Hsf & Hl & _).
  rewrite Nat.sub_diag in Hl. simpl in Hl.
  destruct (Do_co_return body _ _ _ _ _ Ho Hsf Hl) as (HD & Hd & Hv).
  exists (set_frames <[a := run Routine body f']> m'), (run Routine body f').
  split; [|split; [exact (owns_put _ _ _ _ _ Ho)|auto]].
  rewrite calls_app; rewrite Hc; cbn [fst snd]; [|apply all_true_ok].
  rewrite (calls_Returned _ _ _ _ _ HD).
  now rewrite (calls_Do_done body j _ _ _ _ (owns_put _ _ _ _ _ Ho) Hd).
Qed.

(** C2: for a routine whose body suspends [k] times and then returns [v],
    the first [k] calls of [Do] return [true] and the (k+1)-th and all later
    ones return [false]; [Get] fails its assertion after any [i <= k] calls
    and, after any [i > k] calls, returns [v] however often it is called.
    With [k = 0] this is the body that returns [v] at once. *)
Theorem C2_Do_true_k_times_then_Get
    (body : Body Routine) (entry : St) (k : nat) (v : T) m this m0 :
  suspends_then body entry k (co_return v) ->
  call_coroutine default_value entry m = (Returned this, m0) ->
  (forall j, (calls (Do body this) (k + S j) m0).1
             = repeat (Returned true) k ++ repeat (Returned false) (S j))
  /\ (forall i, i <= k ->
        (Get this (calls (Do body this) i m0).2).1 = AssertionFailed)
  /\ (forall i g, k < i ->
        (calls (Get this) g (calls (Do body this) i m0).2).1
        = repeat (Returned v) g).
Proof.
  intros Hk Hc. destruct (call_coroutine_owns _ _ _ _ Hc) as [a H].
  pose proof (initial_frame_suspended entry) as Hs.
  split; [|split].
  - intros j.
    destruct (calls_Do_returns body k v j _ _ _ _ H Hs Hk) as (m' & f' & -> & _).
    reflexivity.
  - intros i Hi.
    destruct (calls_Do_suspends body _ i k _ _ _ _ H Hs Hk Hi)
      as (m' & f' & -> & Ho & [Hd _] & _).
    simpl. rewrite (Get_owned _ _ _ _ Ho), Hd. reflexivity.
  - intros i g Hi. replace i with (k + S (i - S k)) by lia.
    destruct (calls_Do_returns body k v (i - S k) _ _ _ _ H Hs Hk)
      as (m' & f' & -> & Ho & Hd & Hv).
    simpl. rewrite (calls_fixed (Get this) g m' (Returned v)); [reflexivity| |discriminate..].
    rewrite (Get_owned _ _ _ _ Ho), Hd, Hv. reflexivity.
Qed.

(** C3: on a generator handle that is not yet terminated, [Next] resumes
    the frame once; if the body throws [e] in that resumption [Next]
    rethrows [e], if the body ends without a yield [Next] throws
    [Exc(errmsg)] whatever value an earlier yield left in the promise, and
    otherwise [Next] returns the value just yielded.  [PickNext] ends the
    same way and leaves the frame at the same point. *)
Theorem C3_Next_after_one_resume
    (body : Body Generator) m this a f :
  owns m this a f -> suspended f ->
  (Next body this m).2 = set_frames <[a := run Generator body f]> m
  /\ (Next body this m).1 =
       match body (pc f) with
       | generator_throw e => Thrown (rethrow_exception e)
       | co_return_void => Thrown (Exc errmsg)
       | co_yield v _ => Returned v
       end
  /\ (PickNext picked body this m).1 = (Next body this m).1
  /\ exists f', owns (PickNext picked body this m).2 this a f'
       /\ pc f' = pc (run Generator body f)
       /\ done f' = done (run Generator body f)
       /\ exc (promise f') = exc (promise (run Generator body f)).
Proof.
  intros H Hs. pose proof Hs as [Hd He].
  rewrite (PickNext_resumes body _ _ _ _ H Hd). cbv zeta.
  destruct (body (pc f)) as [v next| |e] eqn:Hb.
  - destruct (Next_co_yield body _ _ _ _ _ _ H Hs Hb) as (-> & [Hd' He'] & _ & Hv).
    rewrite He', Hd'. cbn [fst snd]. repeat split; [congruence|].
    eexists. split; [apply owns_put with (f := run Generator body f)|].
    + apply owns_put with (f := f). exact H.
    + simpl. auto.
  - destruct (Next_co_return_void body _ _ _ _ H Hs Hb) as (-> & Hd').
    rewrite (run_co_return_void body f Hb) in *. simpl. rewrite He. simpl.
    repeat split. eexists. split; [exact (owns_put _ _ _ _ _ H)|auto].
  - destruct (Next_generator_throw body _ _ _ _ _ H Hs Hb) as (-> & Hd').
    rewrite (run_generator_throw body f e Hb) in *. simpl.
    repeat split. eexists. split; [exact (owns_put _ _ _ _ _ H)|auto].
Qed.

(** C4: when the body of a routine throws [e] in a resumption, the call of
    [Do] that resumed it rethrows [e] and leaves the frame terminated; every
    later call of [Do] returns [false], throws nothing and changes nothing. *)
Theorem C4_Do_rethrows_once
    (body : Body Routine) m this a f e :
  owns m this a f -> suspended f -> body (pc f) = routine_throw e ->
  exists m',
    Do body this m = (Thrown (rethrow_exception e), m')
    /\ terminated m' this
    /\ forall n, calls (Do body this) n m' = (repeat (Returned false) n, m').
Proof.
  intros H Hs Hb.
  destruct (Do_routine_throw body _ _ _ _ _ H Hs Hb) as (HD & Hd & _).
  pose proof (owns_put _ _ _ _ (run Routine body f) H) as H'.
  eexists. split; [exact HD|]. split.
  - exists a, (run Routine body f). auto.
  - intros n. exact (calls_Do_done body n _ _ _ _ H' Hd).
Qed.

(** ** The iteration adapter against [Next] *)

Lemma range_loop_end (body : Body Generator) fuel m :
  range_loop body {| gen := None |} fuel m = ([], LoopEnded, m).
Proof. now destruct fuel. Qed.

Lemma range_loop_owned (body : Body Generator) fuel m this a f :
  owns m this a f ->
  range_loop body {| gen := Some this |} fuel m =
    match fuel with
    | 0 => ([value (promise f)], FuelSpent, m)
    | S k =>
        match incr body {| gen := Some this |} m with
        | (Returned it', m2) =>
            let '(vs, e, m3) := range_loop body it' k m2 in
            (value (promise f) :: vs, e, m3)
        | (Thrown x, m2) => ([value (promise f)], Escaped x, m2)
        | (AssertionFailed, m2) => ([value (promise f)], Asserted, m2)
        | (UndefinedBehaviour, m2) => ([value (promise f)], WentUndefined, m2)
        end
    end.
Proof.
  intros H. destruct fuel; simpl; now rewrite (deref_owned _ _ _ _ H).
Qed.

(** A loop standing on a fresh value consumes it and then whatever the
    [Next] loop would consume from the same memory. *)
Lemma range_loop_drain_Next (body : Body Generator) fuel :
  forall m this a f,
    owns m this a f -> suspended f ->
    range_loop body {| gen := Some this |} fuel m =
      let r := as_range_for (drain_Next body this fuel m) in
      (value (promise f) :: r.1.1, r.1.2, r.2).
Proof.
  induction fuel as [|k IH]; intros m this a f H Hs;
    rewrite (range_loop_owned body _ _ _ _ _ H); [reflexivity|].
  pose proof Hs as [Hd He].
  rewrite (incr_owned body _ _ _ _ H), Hd. cbv zeta.
  cbn [drain_Next].
  destruct (body (pc f)) as [v next| |e] eqn:Hb.
  - destruct (Next_co_yield body _ _ _ _ _ _ H Hs Hb) as (-> & Hs' & _ & Hv).
    pose proof Hs' as [Hd' He']. rewrite He', Hd'.
    rewrite (IH _ _ _ _ (owns_put _ _ _ _ _ H) Hs'), Hv.
    destruct (drain_Next body this k _) as [[vs e] m']. reflexivity.
  - destruct (Next_co_return_void body _ _ _ _ H Hs Hb) as (-> & Hd').
    rewrite Hd'. rewrite (run_co_return_void body f Hb). simpl. rewrite He.
    now rewrite range_loop_end.
  - destruct (Next_generator_throw body _ _ _ _ _ H Hs Hb) as (-> & Hd').
    rewrite (run_generator_throw body f e Hb). reflexivity.
Qed.

Lemma range_for_drain_Next (body : Body Generator) fuel m this a f :
  owns m this a f -> suspended f ->
  range_for body this fuel m = as_range_for (drain_Next body this fuel m).
Proof.
  intros H Hs. destruct fuel as [|k]; [reflexivity|].
  pose proof Hs as [Hd He]. unfold range_for.
  rewrite (begin_resumes body _ _ _ _ H Hd). cbv zeta. cbn [drain_Next].
  destruct (body (pc f)) as [v next| |e] eqn:Hb.
  - destruct (Next_co_yield body _ _ _ _ _ _ H Hs Hb) as (-> & Hs' & _ & Hv).
    pose proof Hs' as [Hd' He']. rewrite He', Hd'.
    rewrite (range_loop_drain_Next body k _ _ _ _ (owns_put _ _ _ _ _ H) Hs'), Hv.
    destruct (drain_Next body this k _) as [[vs e] m']. reflexivity.
  - destruct (Next_co_return_void body _ _ _ _ H Hs Hb) as (-> & Hd').
    rewrite Hd'. rewrite (run_co_return_void body f Hb). simpl. rewrite He.
    now rewrite range_loop_end.
  - destruct (Next_generator_throw body _ _ _ _ _ H Hs Hb) as (-> & Hd').
    rewrite (run_generator_throw body f e Hb). reflexivity.
Qed.

(** With fuel for one resumption more than there are values, the [Next]
    loop of a generator that yields [vs] and then ends or throws consumes
    [vs] and stops on what escapes from the last call. *)
Lemma drain_Next_finite (body : Body Generator) vs last :
  forall fuel m this a f,
    owns m this a f -> suspended f -> yields_then body (pc f) vs last ->
    (forall v next, last <> co_yield v next) ->
    length vs < fuel ->
    exists m', drain_Next body this fuel m = (vs, Escaped (escapes last), m').
Proof.
  induction vs as [|v vs IH]; intros fuel m this a f H Hs Hy Hlast Hlt;
    (destruct fuel as [|k]; [simpl in Hlt; lia|]); simpl in Hy; cbn [drain_Next].
  - destruct last as [v next| |e].
    + now destruct (Hlast v next).
    + destruct (Next_co_return_void body _ _ _ _ H Hs Hy) as (-> & _). eauto.
    + destruct (Next_generator_throw body _ _ _ _ _ H Hs Hy) as (-> & _). eauto.
  - destruct (body (pc f)) as [v' next| |] eqn:Hb; try contradiction.
    destruct Hy as [-> Hy].
    destruct (Next_co_yield body _ _ _ _ _ _ H Hs Hb) as (-> & Hs' & Hpc & _).
    rewrite <- Hpc in Hy. simpl in Hlt.
    destruct (IH k _ _ _ _ (owns_put _ _ _ _ _ H) Hs' Hy Hlast ltac:(lia)) as [m' ->].
    eauto.
Qed.

(** X14: consuming a generator that is not yet terminated (new, or
    suspended after any number of yields) with a range-for gives, for every
    bound on the number of resumptions, the values that repeated calls of
    [Next] give, in the same order and with the same memory left behind; it
    ends normally where [Next] throws [Exc(errmsg)], and the range-for does
    not end on the [throw Exc(errmsg)] of the interface.  For a body that
    yields [vs] and completes, fuel for one resumption more than [vs] has
    values lets both finish: the range-for with [vs] and a normal end, the
    [Next] loop with [vs] and [Exc(errmsg)].  For a body that yields [vs]
    and then throws [e] (in the priming resumption of [begin] when [vs] is
    empty, in [operator++] otherwise) the range-for consumes [vs] and [e]
    escapes from it. *)
Theorem X14_range_for_agrees_with_Next_while_not_terminated
    (body : Body Generator) (fuel : nat) m this a f :
  owns m this a f -> suspended f ->
  range_for body this fuel m = as_range_for (drain_Next body this fuel m)
  /\ (forall msg, (range_for body this fuel m).1.2 <> Escaped (Exc msg))
  /\ (forall vs, yields_then body (pc f) vs co_return_void -> length vs < fuel ->
        (range_for body this fuel m).1 = (vs, LoopEnded)
        /\ (drain_Next body this fuel m).1 = (vs, Escaped (Exc errmsg)))
  /\ (forall vs e, yields_then body (pc f) vs (generator_throw e) -> length vs < fuel ->
        (range_for body this fuel m).1 = (vs, Escaped (rethrow_exception e))
        /\ (drain_Next body this fuel m).1 = (vs, Escaped (rethrow_exception e))).
Proof.
  intros H Hs.
  pose proof (range_for_drain_Next body fuel _ _ _ _ H Hs) as Heq.
  rewrite Heq. split; [reflexivity|]. unfold as_range_for. cbn [fst snd].
  split; [|split].
  - intros msg. destruct ((drain_Next body this fuel m).1.2) as [|[]| | |]; discriminate.
  - intros vs Hy Hlt.
    destruct (drain_Next_finite body vs _ fuel _ _ _ _ H Hs Hy) as [m' ->];
      [discriminate|exact Hlt|].
    split; reflexivity.
  - intros vs e Hy Hlt.
    destruct (drain_Next_finite body vs _ fuel _ _ _ _ H Hs Hy) as [m' ->];
      [discriminate|exact Hlt|].
    split; reflexivity.
Qed.

(** ** Moving and destroying handles *)

Lemma move_assign_self m this : move_assign this this m = (Returned tt, m).
Proof. unfold move_assign. now rewrite bool_decide_eq_true_2. Qed.

(** Assigning to a handle that owns a frame: the frame is destroyed, the
    handle takes what the source held, the source is left empty. *)
Lemma move_assign_owned m this r a f rco :
  this <> r -> owns m this a f -> handles m !! r = Some rco ->
  move_assign this r m =
    (Returned tt,
     {| frames := delete a (frames m);
        handles := <[r := None]> (<[this := rco]> (handles m)) |}).
Proof.
  intros Hne [Hh Hf] Hr. unfold move_assign.
  rewrite bool_decide_eq_false_2 by exact Hne.
  unfold bind, get_co, co_destroy, bind, frame_at, set_co, ret.
  rewrite Hh. simpl. rewrite Hf. simpl. rewrite Hr. simpl. rewrite Hh. simpl.
  rewrite lookup_insert_ne by exact Hne. rewrite Hr. reflexivity.
Qed.

(** Assigning to an empty handle: nothing is destroyed. *)
Lemma move_assign_empty m this r rco :
  this <> r -> empty_handle m this -> handles m !! r = Some rco ->
  move_assign this r m =
    (Returned tt, set_handles (fun h => <[r := None]> (<[this := rco]> h)) m).
Proof.
  intros Hne Hh Hr. unfold empty_handle in Hh. unfold move_assign.
  rewrite bool_decide_eq_false_2 by exact Hne.
  unfold bind, get_co, set_co, ret.
  rewrite Hh. simpl. rewrite Hr. simpl. rewrite Hh. simpl.
  rewrite lookup_insert_ne by exact Hne. rewrite Hr. reflexivity.
Qed.

(** ** A body that throws *)

Lemma calls_Do_throws (body : Body Routine) k e n m this a f :
  owns m this a f -> suspended f -> suspends_then body (pc f) k (routine_throw e) ->
  exists m' f',
    calls (Do body this) (k + S n) m
      = (repeat (Returned true) k
           ++ Thrown (rethrow_exception e) :: repeat (Returned false) n, m')
    /\ owns m' this a f' /\ done f' = true
    /\ value (promise f') = value (promise f).
Proof.
  intros H Hs Hk.
  destruct (calls_Do_suspends body _ k k _ _ _ _ H Hs Hk (le_n k))
    as (m' & f' & Hc & Ho & Hsf & Hl & Hv).
  rewrite Nat.sub_diag in Hl. simpl in Hl.
  destruct (Do_routine_throw body _ _ _ _ _ Ho Hsf Hl) as (HD & Hd & Hv').
  exists (set_frames <[a := run Routine body f']> m'), (run Routine body f').
  split; [|split; [exact (owns_put _ _ _ _ _ Ho)|split; congruence]].
  rewrite calls_app; rewrite Hc; cbn [fst snd]; [|apply all_true_ok].
  rewrite (calls_Thrown _ _ _ _ _ HD).
  now rewrite (calls_Do_done body n _ _ _ _ (owns_put _ _ _ _ _ Ho) Hd).
Qed.

Lemma calls_Next_throws (body : Body Generator) vs e n m this a f :
  owns m this a f -> suspended f -> yields_then body (pc f) vs (generator_throw e) ->
  exists m' f',
    calls (Next body this) (length vs + S n) m
      = (map Returned vs
           ++ Thrown (rethrow_exception e) :: repeat (Thrown (Exc errmsg)) n, m')
    /\ owns m' this a f' /\ done f' = true.
Proof.
  intros H Hs Hy.
  destruct (calls_Next_yields body vs _ _ _ _ _ H Hs Hy) as (m' & f' & Hc & Ho & Hsf & Hl).
  destruct (Next_generator_throw body _ _ _ _ _ Ho Hsf Hl) as (HN & Hd).
  exists (set_frames <[a := run Generator body f']> m'), (run Generator body f').
  split; [|split; [exact (owns_put _ _ _ _ _ Ho)|exact Hd]].
  rewrite calls_app; rewrite Hc; cbn [fst snd]; [|apply all_Returned_ok].
  rewrite (calls_Thrown _ _ _ _ _ HN).
  now rewrite (calls_Next_done body n _ _ _ _ (owns_put _ _ _ _ _ Ho) Hd).
Qed.

(** C7 (amended): when the body throws [e] in its j-th resumption, the j-th
    driving call rethrows [e] and the handle is terminated from then on.
    For a routine (j = k + 1, after [k] suspensions) the calls of [Do]
    before it return [true] and those after it return [false], and [Get]
    afterwards passes its assertions and returns the value-initialised
    [T], however often it is called.  For a generator (j = n + 1, after
    the yields [vs]) the earlier calls of [Next] returned [vs], and every
    later call throws [Exc(errmsg)]. *)
Theorem C7_failure_on_jth_resume
    (rbody : Body Routine) (gbody : Body Generator) (entry : St) (e : E)
    m this m0 :
  call_coroutine default_value entry m = (Returned this, m0) ->
  (forall k n, suspends_then rbody entry k (routine_throw e) ->
     (calls (Do rbody this) (k + S n) m0).1
       = repeat (Returned true) k
           ++ Thrown (rethrow_exception e) :: repeat (Returned false) n
     /\ terminated (calls (Do rbody this) (k + S n) m0).2 this
     /\ forall g, (calls (Get this) g (calls (Do rbody this) (k + S n) m0).2).1
                  = repeat (Returned default_value) g)
  /\ (forall vs n, yields_then gbody entry vs (generator_throw e) ->
     (calls (Next gbody this) (length vs + S n) m0).1
       = map Returned vs
           ++ Thrown (rethrow_exception e) :: repeat (Thrown (Exc errmsg)) n
     /\ terminated (calls (Next gbody this) (length vs + S n) m0).2 this).
Proof.
  intros Hc. destruct (call_coroutine_owns _ _ _ _ Hc) as [a H].
  pose proof (initial_frame_suspended entry) as Hs. split.
  - intros k n Hk.
    destruct (calls_Do_throws rbody k e n _ _ _ _ H Hs Hk) as (m' & f' & -> & Ho & Hd & Hv).
    cbn [fst snd]. split; [reflexivity|]. split; [exists a, f'; auto|].
    intros g. rewrite (calls_fixed (Get this) g m' (Returned default_value));
      [reflexivity| |discriminate..].
    rewrite (Get_owned _ _ _ _ Ho), Hd, Hv. reflexivity.
  - intros vs n Hy.
    destruct (calls_Next_throws gbody vs e n _ _ _ _ H Hs Hy) as (m' & f' & -> & Ho & Hd).
    cbn [fst snd]. split; [reflexivity|]. exists a, f'; auto.
Qed.

(** ** Empty handles *)

Lemma get_co_empty m r : empty_handle m r -> get_co r m = (Returned None, m).
Proof. unfold empty_handle, get_co. now intros ->. Qed.

Lemma Do_empty (body : Body Routine) m r :
  empty_handle m r -> Do body r m = (AssertionFailed, m).
Proof. intros H. unfold Do, bind. now rewrite (get_co_empty _ _ H). Qed.

Lemma Get_empty m r : empty_handle m r -> Get r m = (AssertionFailed, m).
Proof. intros H. unfold Get, bind. now rewrite (get_co_empty _ _ H). Qed.

Lemma Pick_empty m r : empty_handle m r -> Pick picked r m = (AssertionFailed, m).
Proof. intros H. unfold Pick, bind. now rewrite (get_co_empty _ _ H). Qed.

Lemma Next_empty (body : Body Generator) m r :
  empty_handle m r -> Next body r m = (AssertionFailed, m).
Proof. intros H. unfold Next, bind. now rewrite (get_co_empty _ _ H). Qed.

Lemma PickNext_empty (body : Body Generator) m r :
  empty_handle m r -> PickNext picked body r m = (AssertionFailed, m).
Proof. intros H. unfold PickNext, bind. now rewrite (get_co_empty _ _ H). Qed.

(** [begin] has no assertion: it asks a null handle whether it is done. *)
Lemma begin_empty (body : Body Generator) m r :
  empty_handle m r -> begin body r m = (UndefinedBehaviour, m).
Proof.
  intros H. unfold begin, Iterator_ctor, bind. now rewrite (get_co_empty _ _ H).
Qed.

Lemma destructor_empty m r :
  empty_handle m r -> destructor r m = (Returned tt, set_handles (delete r) m).
Proof. intros H. unfold destructor, bind. now rewrite (get_co_empty _ _ H). Qed.

Lemma move_construct_returns m r co :
  handles m !! r = Some co ->
  let this := fresh (dom (handles m)) in
  this <> r
  /\ move_construct r m =
       (Returned this, set_handles (fun h => <[r := None]> (<[this := co]> h)) m).
Proof.
  intros Hr this.
  assert (this <> r) as Hne.
  { intros Heq. apply (is_fresh (dom (handles m))). fold this. rewrite Heq.
    apply elem_of_dom. eauto. }
  split; [exact Hne|].
  unfold move_construct, bind, get_co, set_co, ret. rewrite Hr. simpl. fold this.
  rewrite lookup_insert_ne by exact Hne. now rewrite Hr.
Qed.

(** ** What a handle answers depends on its frame only *)

Lemma calls_step {A} (op : Eff A) n m o m' :
  op m = (o, m') -> o <> AssertionFailed -> o <> UndefinedBehaviour ->
  calls op (S n) m = (o :: (calls op n m').1, (calls op n m').2).
Proof.
  intros Hop Ha Hu. simpl. rewrite Hop.
  destruct o; try congruence; now destruct (calls op n m').
Qed.

Lemma calls_Do_same_frame (body : Body Routine) n :
  forall m1 h1 a1 m2 h2 a2 f,
    owns m1 h1 a1 f -> owns m2 h2 a2 f ->
    (calls (Do body h1) n m1).1 = (calls (Do body h2) n m2).1.
Proof.
  induction n as [|n IH]; intros m1 h1 a1 m2 h2 a2 f H1 H2; [reflexivity|].
  destruct (done f) eqn:Hd.
  - rewrite (calls_Do_done body _ _ _ _ _ H1 Hd).
    now rewrite (calls_Do_done body _ _ _ _ _ H2 Hd).
  - pose proof (Do_resumes body _ _ _ _ H1 Hd) as E1.
    pose proof (Do_resumes body _ _ _ _ H2 Hd) as E2.
    rewrite (calls_step _ n _ _ _ E1), (calls_step _ n _ _ _ E2);
      try (destruct (exc (promise (run Routine body f))); discriminate).
    cbn [fst]. f_equal.
    exact (IH _ _ _ _ _ _ _ (owns_put _ _ _ _ _ H1) (owns_put _ _ _ _ _ H2)).
Qed.

Lemma calls_Next_same_frame (body : Body Generator) n :
  forall m1 h1 a1 m2 h2 a2 f,
    owns m1 h1 a1 f -> owns m2 h2 a2 f ->
    (calls (Next body h1) n m1).1 = (calls (Next body h2) n m2).1.
Proof.
  induction n as [|n IH]; intros m1 h1 a1 m2 h2 a2 f H1 H2; [reflexivity|].
  destruct (done f) eqn:Hd.
  - rewrite (calls_Next_done body _ _ _ _ _ H1 Hd).
    now rewrite (calls_Next_done body _ _ _ _ _ H2 Hd).
  - pose proof (Next_resumes body _ _ _ _ H1 Hd) as E1.
    pose proof (Next_resumes body _ _ _ _ H2 Hd) as E2.
    rewrite (calls_step _ n _ _ _ E1), (calls_step _ n _ _ _ E2);
      try (destruct (exc (promise (run Generator body f)));
           [|destruct (done (run Generator body f))]; discriminate).
    cbn [fst]. f_equal.
    exact (IH _ _ _ _ _ _ _ (owns_put _ _ _ _ _ H1) (owns_put _ _ _ _ _ H2)).
Qed.

(** What holds once [r] has been moved to [this]. *)
Lemma moved_handle_facts (rbody : Body Routine) (gbody : Body Generator)
    m m' r this a f :
  owns m r a f -> empty_handle m' r -> owns m' this a f ->
  Do rbody r m' = (AssertionFailed, m')
  /\ Get r m' = (AssertionFailed, m')
  /\ Pick picked r m' = (AssertionFailed, m')
  /\ Next gbody r m' = (AssertionFailed, m')
  /\ PickNext picked gbody r m' = (AssertionFailed, m')
  /\ (forall n, (calls (Do rbody this) n m').1 = (calls (Do rbody r) n m).1)
  /\ (forall n, (calls (Next gbody this) n m').1 = (calls (Next gbody r) n m).1)
  /\ (Get this m').1 = (Get r m).1
  /\ destructor r m' = (Returned tt, set_handles (delete r) m')
  /\ (exists r2 m2, move_construct r m' = (Returned r2, m2)
                    /\ empty_handle m2 r2 /\ empty_handle m2 r)
  /\ (forall s co, s <> r -> handles m' !! s = Some co ->
        exists m2, move_assign r s m' = (Returned tt, m2)
                   /\ handles m2 !! r = Some co).
Proof.
  intros H He H'.
  split; [exact (Do_empty rbody _ _ He)|].
  split; [exact (Get_empty _ _ He)|].
  split; [exact (Pick_empty _ _ He)|].
  split; [exact (Next_empty gbody _ _ He)|].
  split; [exact (PickNext_empty gbody _ _ He)|].
  split; [intros n; exact (calls_Do_same_frame rbody n _ _ _ _ _ _ _ H' H)|].
  split; [intros n; exact (calls_Next_same_frame gbody n _ _ _ _ _ _ _ H' H)|].
  split; [now rewrite (Get_owned _ _ _ _ H'), (Get_owned _ _ _ _ H)|].
  split; [exact (destructor_empty _ _ He)|]. split.
  - destruct (move_construct_returns _ _ _ He) as [Hne ->].
    eexists _, _. split; [reflexivity|]. unfold empty_handle. simpl.
    rewrite lookup_insert_eq. rewrite lookup_insert_ne by congruence.
    now rewrite lookup_insert_eq.
  - intros s co Hne Hs.
    rewrite (move_assign_empty _ _ _ _ (not_eq_sym Hne) He Hs).
    eexists. split; [reflexivity|]. simpl.
    rewrite lookup_insert_ne by exact Hne. apply lookup_insert_eq.
Qed.

(** C8 (amended): move construction and move assignment (into an empty
    handle, or into one that owns another frame) return, leave the source
    empty and make the target the owner of the source's frame, untouched.
    On the moved-from source [Do], [Get], [Pick], [Next] and [PickNext] fail
    their assertion, while destroying it, moving from it again and
    assigning to it are harmless; on the target, any number of calls of
    [Do] or [Next], and [Get], answer what they would have answered on the
    source had it not been moved. *)
Theorem C8_move_transfers_ownership
    (rbody : Body Routine) (gbody : Body Generator) m r a f :
  owns m r a f ->
  (exists this m', move_construct r m = (Returned this, m'))
  /\ (forall this, this <> r ->
        empty_handle m this \/ (exists b fb, owns m this b fb /\ b <> a) ->
        exists m', move_assign this r m = (Returned tt, m'))
  /\ (forall this m',
        move_construct r m = (Returned this, m')
        \/ (this <> r
            /\ (empty_handle m this \/ (exists b fb, owns m this b fb /\ b <> a))
            /\ move_assign this r m = (Returned tt, m')) ->
        empty_handle m' r
        /\ owns m' this a f
        /\ Do rbody r m' = (AssertionFailed, m')
        /\ Get r m' = (AssertionFailed, m')
        /\ Pick picked r m' = (AssertionFailed, m')
        /\ Next gbody r m' = (AssertionFailed, m')
        /\ PickNext picked gbody r m' = (AssertionFailed, m')
        /\ (forall n, (calls (Do rbody this) n m').1 = (calls (Do rbody r) n m).1)
        /\ (forall n, (calls (Next gbody this) n m').1 = (calls (Next gbody r) n m).1)
        /\ (Get this m').1 = (Get r m).1
        /\ destructor r m' = (Returned tt, set_handles (delete r) m')
        /\ (exists r2 m2, move_construct r m' = (Returned r2, m2)
                          /\ empty_handle m2 r2 /\ empty_handle m2 r)
        /\ (forall s co, s <> r -> handles m' !! s = Some co ->
              exists m2, move_assign r s m' = (Returned tt, m2)
                         /\ handles m2 !! r = Some co)).
Proof.
  intros H. pose proof H as [Hh Hf].
  destruct (move_construct_returns _ _ _ Hh) as [Hfresh Hmc].
  split; [eauto|]. split.
  - intros this Hne [He | (b & fb & Hb & _)].
    + rewrite (move_assign_empty _ _ _ _ Hne He Hh). eauto.
    + rewrite (move_assign_owned _ _ _ _ _ _ Hne Hb Hh). eauto.
  - intros this m' Hmove.
    assert (empty_handle m' r /\ owns m' this a f) as [He H'].
    { destruct Hmove as [Hm | (Hne & [He | (b & fb & Hb & Hba)] & Hm)].
      - rewrite Hmc in Hm. injection Hm as <- <-.
        unfold empty_handle, owns. simpl. rewrite lookup_insert_eq.
        rewrite lookup_insert_ne by congruence. now rewrite lookup_insert_eq.
      - rewrite (move_assign_empty _ _ _ _ Hne He Hh) in Hm. injection Hm as <-.
        unfold empty_handle, owns. simpl. rewrite lookup_insert_eq.
        rewrite lookup_insert_ne by congruence. now rewrite lookup_insert_eq.
      - rewrite (move_assign_owned _ _ _ _ _ _ Hne Hb Hh) in Hm. injection Hm as <-.
        unfold empty_handle, owns. simpl. rewrite lookup_insert_eq.
        rewrite lookup_insert_ne by congruence. rewrite lookup_insert_eq.
        rewrite lookup_delete_ne by congruence. auto. }
    split; [exact He|]. split; [exact H'|].
    exact (moved_handle_facts rbody gbody _ _ _ _ _ _ H He H').
Qed.

(** ** Terminated frames *)

Lemma serve_terminated (rbody : Body Routine) (gbody : Body Generator)
    m this a f q :
  owns m this a f -> done f = true ->
  exists o m' f',
    serve picked rbody gbody this q m = (o, m')
    /\ o <> AssertionFailed /\ o <> UndefinedBehaviour
    /\ owns m' this a f' /\ done f' = true
    /\ pc f' = pc f /\ exc (promise f') = exc (promise f).
Proof.
  intros H Hd. destruct q; unfold serve, bind.
  - rewrite (Do_done rbody _ _ _ _ H Hd). exists (Returned tt), m, f. now auto.
  - rewrite (Get_owned _ _ _ _ H), Hd. exists (Returned tt), m, f. now auto.
  - rewrite (Pick_owned _ _ _ _ H), Hd. eexists (Returned tt), _, _.
    split; [reflexivity|]. split; [discriminate|]. split; [discriminate|].
    split; [exact (owns_put _ _ _ _ _ H)|]. simpl. auto.
  - rewrite (Next_done gbody _ _ _ _ H Hd). exists (Thrown (Exc errmsg)), m, f. now auto.
  - rewrite (PickNext_done gbody _ _ _ _ H Hd).
    exists (Thrown (Exc errmsg)), m, f. now auto.
  - rewrite (begin_done gbody _ _ _ _ H Hd). exists (Returned tt), m, f. now auto.
  - rewrite (deref_owned _ _ _ _ H). exists (Returned tt), m, f. now auto.
Qed.

Lemma perform_terminated (rbody : Body Routine) (gbody : Body Generator) this a qs :
  forall m f,
    owns m this a f -> done f = true ->
    exists os m' f',
      perform (map (serve picked rbody gbody this) qs) m = (os, m')
      /\ length os = length qs
      /\ Forall (fun o => o <> AssertionFailed /\ o <> UndefinedBehaviour) os
      /\ owns m' this a f' /\ done f' = true
      /\ pc f' = pc f /\ exc (promise f') = exc (promise f).
Proof.
  induction qs as [|q qs IH]; intros m f H Hd.
  - exists [], m, f. simpl. split; [reflexivity|]. split; [reflexivity|].
    split; [constructor|auto].
  - destruct (serve_terminated rbody gbody _ _ _ _ q H Hd)
      as (o & m1 & f1 & Hs & Ha & Hu & H1 & Hd1 & Hpc1 & He1).
    destruct (IH _ _ H1 Hd1) as (os & m' & f' & Hp & Hlen & Hall & H' & Hd' & Hpc' & He').
    exists (o :: os), m', f'. simpl. rewrite Hs, Hp.
    split; [destruct o; congruence|].
    split; [now rewrite Hlen|]. split; [constructor; auto|].
    rewrite Hpc', He'. auto.
Qed.

(** C9 (amended): on a handle whose frame is terminated, [Do], [Get],
    [Pick], [Next], [PickNext], [begin] and [operator*], in any number and
    order, fail no assertion and do nothing undefined, and leave the frame
    terminated at the same point with the same captured exception: none of
    them resumes it.  [operator++] resumes the frame without asking whether
    it is done; on a frame that is not terminated it resumes it once. *)
Theorem C9_terminated_stays_terminated
    (rbody : Body Routine) (gbody : Body Generator) m this a f :
  owns m this a f ->
  (done f = true ->
   forall qs, exists os m' f',
     perform (map (serve picked rbody gbody this) qs) m = (os, m')
     /\ length os = length qs
     /\ Forall (fun o => o <> AssertionFailed /\ o <> UndefinedBehaviour) os
     /\ owns m' this a f' /\ done f' = true
     /\ pc f' = pc f /\ exc (promise f') = exc (promise f))
  /\ (suspended f ->
      (incr gbody {| gen := Some this |} m).2
        = set_frames <[a := run Generator gbody f]> m
      /\ (incr gbody {| gen := Some this |} m).1 <> UndefinedBehaviour).
Proof.
  intros H. split.
  - intros Hd qs. exact (perform_terminated rbody gbody this a qs m f H Hd).
  - intros [Hd He]. rewrite (incr_owned gbody _ _ _ _ H), Hd. cbv zeta.
    split; [reflexivity|].
    cbn [fst]. destruct (exc (promise (run Generator gbody f))); discriminate.
Qed.

(** C10: move assignment of a handle to itself changes nothing; move
    assignment into a handle that owns a live frame (done or not) destroys
    that frame, then takes over what the source held and leaves the source
    empty, so the target holds one frame at most and its old frame is not
    left behind. *)
Theorem C10_move_assign_self_safe_and_destroys_old
    m this r a f rco :
  move_assign this this m = (Returned tt, m)
  /\ (this <> r -> owns m this a f -> handles m !! r = Some rco ->
      exists m',
        move_assign this r m = (Returned tt, m')
        /\ frames m' = delete a (frames m)
        /\ frames m' !! a = None
        /\ handles m' !! this = Some rco
        /\ empty_handle m' r).
Proof.
  split; [apply move_assign_self|].
  intros Hne H Hr. eexists. split; [exact (move_assign_owned _ _ _ _ _ _ Hne H Hr)|].
  unfold empty_handle. simpl. split; [reflexivity|]. split; [apply lookup_delete_eq|].
  split; [|apply lookup_insert_eq].
  rewrite lookup_insert_ne by congruence. apply lookup_insert_eq.
Qed.

(** * Further properties of the code *)

(** ** What one operation does to the memory *)

Lemma put_put m a f1 f2 :
  set_frames <[a := f2]> (set_frames <[a := f1]> m) = set_frames <[a := f2]> m.
Proof. unfold set_frames. simpl. now rewrite insert_insert_eq. Qed.

Lemma same_point_refl f : same_point f f.
Proof. now repeat split. Qed.

Lemma advanced_run_Routine (rbody : Body Routine) (gbody : Body Generator) f :
  done f = false -> advanced rbody gbody f (run Routine rbody f).
Proof.
  intros Hd. eexists. split; [right; split; [exact Hd|left; reflexivity]|].
  apply same_point_refl.
Qed.

Lemma advanced_run_Generator (rbody : Body Routine) (gbody : Body Generator) f :
  done f = false -> advanced rbody gbody f (run Generator gbody f).
Proof.
  intros Hd. eexists. split; [right; split; [exact Hd|right; reflexivity]|].
  apply same_point_refl.
Qed.

(** Without a live frame behind [this], nothing is written. *)
Ltac no_frame Hh Hf :=
  unfold bind, get_co, co_done, co_promise, co_resume, frame_at, bind; simpl;
  rewrite ?Hh; simpl; rewrite ?Hf; reflexivity.

Lemma Do_effect (rbody : Body Routine) (gbody : Body Generator) this m :
  effect_of rbody gbody this m (Do rbody this m).2.
Proof.
  destruct (handles m !! this) as [[a|]|] eqn:Hh;
    [destruct (frames m !! a) as [f|] eqn:Hf|..];
    [|left; unfold Do; no_frame Hh Hf..].
  assert (owns m this a f) as H by now split.
  destruct (done f) eqn:Hd.
  - left. now rewrite (Do_done rbody _ _ _ _ H Hd).
  - right. exists a, f, (run Routine rbody f).
    rewrite (Do_resumes rbody _ _ _ _ H Hd).
    split; [exact H|]. split; [reflexivity|]. now apply advanced_run_Routine.
Qed.

Lemma Get_effect this m : (Get this m).2 = m.
Proof.
  destruct (handles m !! this) as [[a|]|] eqn:Hh;
    [destruct (frames m !! a) as [f|] eqn:Hf|..];
    [|unfold Get; no_frame Hh Hf..].
  assert (owns m this a f) as H by now split.
  now rewrite (Get_owned _ _ _ _ H).
Qed.

Lemma Pick_effect (rbody : Body Routine) (gbody : Body Generator) this m :
  effect_of rbody gbody this m (Pick picked this m).2.
Proof.
  destruct (handles m !! this) as [[a|]|] eqn:Hh;
    [destruct (frames m !! a) as [f|] eqn:Hf|..];
    [|left; unfold Pick; no_frame Hh Hf..].
  assert (owns m this a f) as H by now split.
  rewrite (Pick_owned _ _ _ _ H). destruct (done f) eqn:Hd; [|now left].
  right. eexists a, f, _. split; [exact H|]. split; [reflexivity|].
  exists f. split; [now left|]. now repeat split.
Qed.

Lemma Next_effect (rbody : Body Routine) (gbody : Body Generator) this m :
  effect_of rbody gbody this m (Next gbody this m).2.
Proof.
  destruct (handles m !! this) as [[a|]|] eqn:Hh;
    [destruct (frames m !! a) as [f|] eqn:Hf|..];
    [|left; unfold Next; no_frame Hh Hf..].
  assert (owns m this a f) as H by now split.
  destruct (done f) eqn:Hd.
  - left. now rewrite (Next_done gbody _ _ _ _ H Hd).
  - right. exists a, f, (run Generator gbody f).
    rewrite (Next_resumes gbody _ _ _ _ H Hd).
    split; [exact H|]. split; [reflexivity|]. now apply advanced_run_Generator.
Qed.

Lemma PickNext_effect (rbody : Body Routine) (gbody : Body Generator) this m :
  effect_of rbody gbody this m (PickNext picked gbody this m).2.
Proof.
  destruct (handles m !! this) as [[a|]|] eqn:Hh;
    [destruct (frames m !! a) as [f|] eqn:Hf|..];
    [|left; unfold PickNext; no_frame Hh Hf..].
  assert (owns m this a f) as H by now split.
  destruct (done f) eqn:Hd.
  - left. now rewrite (PickNext_done gbody _ _ _ _ H Hd).
  - right. rewrite (PickNext_resumes gbody _ _ _ _ H Hd). cbv zeta.
    destruct (exc (promise (run Generator gbody f))) eqn:He;
      [|destruct (done (run Generator gbody f)) eqn:Hd'].
    + exists a, f, (run Generator gbody f). split; [exact H|].
      split; [reflexivity|]. now apply advanced_run_Generator.
    + exists a, f, (run Generator gbody f). split; [exact H|].
      split; [reflexivity|]. now apply advanced_run_Generator.
    + eexists a, f, _. split; [exact H|]. cbn [snd]. rewrite put_put.
      split; [reflexivity|]. exists (run Generator gbody f).
      split; [right; split; [exact Hd|right; reflexivity]|].
      repeat split; simpl; congruence.
Qed.

Lemma begin_effect (rbody : Body Routine) (gbody : Body Generator) this m :
  effect_of rbody gbody this m (begin gbody this m).2.
Proof.
  destruct (handles m !! this) as [[a|]|] eqn:Hh;
    [destruct (frames m !! a) as [f|] eqn:Hf|..];
    [|left; unfold begin, Iterator_ctor; no_frame Hh Hf..].
  assert (owns m this a f) as H by now split.
  destruct (done f) eqn:Hd.
  - left. now rewrite (begin_done gbody _ _ _ _ H Hd).
  - right. exists a, f, (run Generator gbody f).
    rewrite (begin_resumes gbody _ _ _ _ H Hd).
    split; [exact H|]. split; [reflexivity|]. now apply advanced_run_Generator.
Qed.

Lemma deref_effect (it : Iterator) m : (deref it m).2 = m.
Proof.
  destruct it as [[this|]]; [|reflexivity].
  destruct (handles m !! this) as [[a|]|] eqn:Hh;
    [destruct (frames m !! a) as [f|] eqn:Hf|..];
    [|unfold deref; no_frame Hh Hf..].
  assert (owns m this a f) as H by now split.
  now rewrite (deref_owned _ _ _ _ H).
Qed.

Lemma incr_effect (rbody : Body Routine) (gbody : Body Generator) this m :
  effect_of rbody gbody this m (incr gbody {| gen := Some this |} m).2.
Proof.
  destruct (handles m !! this) as [[a|]|] eqn:Hh;
    [destruct (frames m !! a) as [f|] eqn:Hf|..];
    [|left; unfold incr; no_frame Hh Hf..].
  assert (owns m this a f) as H by now split.
  rewrite (incr_owned gbody _ _ _ _ H). cbv zeta.
  destruct (done f) eqn:Hd; [now left|].
  right. exists a, f, (run Generator gbody f).
  split; [exact H|]. split; [reflexivity|]. now apply advanced_run_Generator.
Qed.

Lemma bind_ret_tt_memory {A} (c : Eff A) m :
  (bind c (fun _ => ret tt) m).2 = (c m).2.
Proof. unfold bind, ret. now destruct (c m) as [[] ?]. Qed.

Lemma operate_effect (rbody : Body Routine) (gbody : Body Generator) this o m :
  effect_of rbody gbody this m (operate picked rbody gbody this o m).2.
Proof.
  destruct o; unfold operate; rewrite bind_ret_tt_memory.
  - apply Do_effect.
  - left. apply Get_effect.
  - apply Pick_effect.
  - apply Next_effect.
  - apply PickNext_effect.
  - apply begin_effect.
  - left. apply deref_effect.
  - apply incr_effect.
Qed.

(** ** Invariants under the operations on one object *)

Lemma touches_only_refl this m : touches_only this m m.
Proof. now repeat split. Qed.

Lemma touches_only_trans this m1 m2 m3 :
  touches_only this m1 m2 -> touches_only this m2 m3 -> touches_only this m1 m3.
Proof.
  intros (Hh1 & Hd1 & Hf1) (Hh2 & Hd2 & Hf2). split; [congruence|].
  split; [congruence|]. intros b Hb.
  rewrite Hf2 by (rewrite Hh1; exact Hb). now apply Hf1.
Qed.

Lemma effect_touches_only (rbody : Body Routine) (gbody : Body Generator)
    this m m' :
  effect_of rbody gbody this m m' -> touches_only this m m'.
Proof.
  intros [-> | (a & f & f' & [Hh Hf] & -> & _)]; [apply touches_only_refl|].
  split; [reflexivity|]. split; simpl.
  - rewrite dom_insert_L. apply subseteq_union_1_L, singleton_subseteq_l.
    apply elem_of_dom. eauto.
  - intros b Hb. apply lookup_insert_ne. congruence.
Qed.

Lemma same_point_status f f' :
  same_point f' f -> suspended f \/ done f = true ->
  suspended f' \/ done f' = true.
Proof.
  intros (_ & Hd & He) [[Hd' He'] | Hd']; [left; split|right]; congruence.
Qed.

Lemma effect_consistent (rbody : Body Routine) (gbody : Body Generator)
    this m m' :
  effect_of rbody gbody this m m' -> consistent m -> consistent m'.
Proof.
  intros [-> | (a & f & f' & [Hh Hf] & -> & (g & Hg & Hsp))] Hc; [exact Hc|].
  intros b fb. simpl. rewrite lookup_insert. case_decide as Hab.
  - intros [= <-]. apply (same_point_status _ _ Hsp).
    destruct Hg as [-> | [Hd [-> | ->]]]; [exact (Hc _ _ Hf)|..];
      (apply run_suspended_or_done; destruct (Hc _ _ Hf) as [Hs | Hd']; [exact Hs|congruence]).
  - apply Hc.
Qed.

Lemma touches_only_well_owned this m m' :
  touches_only this m m' -> well_owned m -> well_owned m'.
Proof.
  intros (Hh & Hd & _) (W1 & W2 & W3).
  assert (forall a, is_Some (frames m' !! a) <-> is_Some (frames m !! a)) as Hlive.
  { intros a. rewrite <- !(elem_of_dom (D := gset nat)). now rewrite Hd. }
  unfold well_owned. rewrite Hh. split; [|split].
  - intros h a Ha. apply Hlive. exact (W1 _ _ Ha).
  - exact W2.
  - intros a Ha. apply W3. now apply Hlive.
Qed.

Lemma perform_operate_touches_only
    (rbody : Body Routine) (gbody : Body Generator) this os :
  forall m, touches_only this m
              (perform (map (operate picked rbody gbody this) os) m).2.
Proof.
  induction os as [|o os IH]; intros m; [apply touches_only_refl|].
  pose proof (effect_touches_only _ _ _ _ _ (operate_effect rbody gbody this o m)) as Ho.
  simpl. destruct (operate picked rbody gbody this o m) as [out m1]. simpl in Ho.
  specialize (IH m1).
  destruct (perform (map (operate picked rbody gbody this) os) m1) as [outs m2].
  destruct out; simpl in *; try exact Ho; exact (touches_only_trans _ _ _ _ Ho IH).
Qed.

Lemma perform_operate_consistent
    (rbody : Body Routine) (gbody : Body Generator) this os :
  forall m, consistent m ->
            consistent (perform (map (operate picked rbody gbody this) os) m).2.
Proof.
  induction os as [|o os IH]; intros m Hc; [exact Hc|].
  pose proof (effect_consistent _ _ _ _ _ (operate_effect rbody gbody this o m) Hc) as Ho.
  simpl. destruct (operate picked rbody gbody this o m) as [out m1]. simpl in Ho.
  specialize (IH m1 Ho).
  destruct (perform (map (operate picked rbody gbody this) os) m1) as [outs m2].
  destruct out; simpl in *; assumption.
Qed.

(** X1: whatever the caller does with one object ([Do], [Get], [Pick],
    [Next], [PickNext], [begin], [operator*] and [operator++] in any number
    and order, whether they return, throw, fail an assertion or are
    undefined), no object changes its handle, no frame is created or
    destroyed, and no frame other than the one the object holds is written. *)
Theorem X1_operations_touch_only_their_own_frame
    (rbody : Body Routine) (gbody : Body Generator) this os m :
  touches_only this m (perform (map (operate picked rbody gbody this) os) m).2.
Proof. apply perform_operate_touches_only. Qed.

(** X2: the same operations keep two invariants of the memory: exclusive
    ownership (every handle that is not null refers to a live frame, no two
    objects hold the same handle, every live frame is held), and that every
    frame is either suspended with no exception captured or done. *)
Theorem X2_operations_keep_the_invariants
    (rbody : Body Routine) (gbody : Body Generator) this os m :
  well_owned m -> consistent m ->
  well_owned (perform (map (operate picked rbody gbody this) os) m).2
  /\ consistent (perform (map (operate picked rbody gbody this) os) m).2.
Proof.
  intros Hw Hc. split.
  - exact (touches_only_well_owned _ _ _
             (perform_operate_touches_only rbody gbody this os m) Hw).
  - exact (perform_operate_consistent rbody gbody this os m Hc).
Qed.

(** ** Invariants under creation, moves and destruction *)

Lemma well_owned_empty :
  well_owned ({| frames := ∅; handles := ∅ |} : Memory).
Proof.
  split; [|split]; simpl.
  - intros h a Hh. now rewrite lookup_empty in Hh.
  - intros h1 h2 a Hh. now rewrite lookup_empty in Hh.
  - intros a [f Hf]. now rewrite lookup_empty in Hf.
Qed.

Lemma consistent_empty :
  consistent ({| frames := ∅; handles := ∅ |} : Memory).
Proof. intros a f Hf. simpl in Hf. now rewrite lookup_empty in Hf. Qed.

Lemma fresh_handle_unused m : handles m !! fresh (dom (handles m)) = None.
Proof. apply (not_elem_of_dom (D := gset nat)), is_fresh. Qed.

Lemma fresh_frame_unused m : frames m !! fresh (dom (frames m)) = None.
Proof. apply (not_elem_of_dom (D := gset nat)), is_fresh. Qed.

Lemma call_coroutine_well_owned (entry : St) m :
  well_owned m -> well_owned (call_coroutine default_value entry m).2.
Proof.
  intros (W1 & W2 & W3). unfold call_coroutine. simpl.
  pose proof (fresh_handle_unused m) as Hthis.
  pose proof (fresh_frame_unused m) as Ha.
  set (this := fresh (dom (handles m))) in *.
  set (a := fresh (dom (frames m))) in *.
  assert (forall h, handles m !! h <> Some (Some a)) as Hnone.
  { intros h Hh. destruct (W1 _ _ Hh) as [f Hf]. congruence. }
  split; [|split]; simpl.
  - intros h b Hh. destruct (decide (a = b)) as [<-|Hab].
    + rewrite lookup_insert_eq. eauto.
    + rewrite lookup_insert_ne by exact Hab.
      destruct (decide (this = h)) as [<-|Hne].
      * rewrite lookup_insert_eq in Hh. congruence.
      * rewrite lookup_insert_ne in Hh by exact Hne. exact (W1 _ _ Hh).
  - intros h1 h2 b H1 H2.
    destruct (decide (this = h1)) as [<-|Hne1];
      destruct (decide (this = h2)) as [<-|Hne2]; [reflexivity|..].
    + rewrite lookup_insert_eq in H1. rewrite lookup_insert_ne in H2 by exact Hne2.
      injection H1 as <-. now destruct (Hnone h2).
    + rewrite lookup_insert_eq in H2. rewrite lookup_insert_ne in H1 by exact Hne1.
      injection H2 as <-. now destruct (Hnone h1).
    + rewrite lookup_insert_ne in H1 by exact Hne1.
      rewrite lookup_insert_ne in H2 by exact Hne2. exact (W2 _ _ _ H1 H2).
  - intros b. rewrite lookup_insert. case_decide as Hab.
    + intros _. exists this. subst. apply lookup_insert_eq.
    + intros Hb. destruct (W3 _ Hb) as [h Hh]. exists h.
      rewrite lookup_insert_ne; [exact Hh|congruence].
Qed.

Lemma call_coroutine_consistent (entry : St) m :
  consistent m -> consistent (call_coroutine default_value entry m).2.
Proof.
  intros Hc b fb. unfold call_coroutine. simpl. rewrite lookup_insert.
  case_decide; [|apply Hc]. intros [= <-]. left. apply initial_frame_suspended.
Qed.

(** The memory after [this] (which was not there, was empty, or held the
    frame [b] that is now destroyed) took over what [r] held. *)
Lemma handed_over_well_owned m r this rco (old : option nat) :
  well_owned m -> this <> r -> handles m !! r = Some rco ->
  match old with
  | Some b => handles m !! this = Some (Some b)
  | None => forall b, handles m !! this <> Some (Some b)
  end ->
  well_owned
    {| frames := match old with Some b => delete b (frames m) | None => frames m end;
       handles := <[r := None]> (<[this := rco]> (handles m)) |}.
Proof.
  intros (W1 & W2 & W3) Hne Hr Hold.
  assert (forall h a, h <> this -> handles m !! h = Some (Some a) -> old <> Some a) as K.
  { intros h a Hh Ha ->. exact (Hh (W2 _ _ _ Ha Hold)). }
  assert (forall a, old <> Some a -> is_Some (frames m !! a) ->
                    is_Some (match old with Some b => delete b (frames m)
                                          | None => frames m end !! a)) as L.
  { intros a Ho Ha. destruct old as [b|]; [|exact Ha].
    rewrite lookup_delete_ne by congruence. exact Ha. }
  assert (forall h a, <[r := None]> (<[this := rco]> (handles m)) !! h = Some (Some a) ->
                      h <> r /\ handles m !! (if decide (h = this) then r else h)
                                = Some (Some a)) as Src.
  { intros h a. rewrite lookup_insert. case_decide as H1; [discriminate|].
    rewrite lookup_insert. case_decide as H2.
    - intros [= ->]. subst h. rewrite decide_True by reflexivity. auto.
    - intros Hh. rewrite decide_False by congruence. auto. }
  split; [|split]; simpl.
  - intros h a Hh. destruct (Src _ _ Hh) as [Hhr Hm]. apply L.
    + case_decide as Hd; [exact (K _ _ (not_eq_sym Hne) Hm)|exact (K _ _ Hd Hm)].
    + exact (W1 _ _ Hm).
  - intros h1 h2 a H1 H2.
    destruct (Src _ _ H1) as [Hr1 Hm1]. destruct (Src _ _ H2) as [Hr2 Hm2].
    pose proof (W2 _ _ _ Hm1 Hm2) as Heq.
    repeat case_decide; congruence.
  - intros a Ha.
    assert (is_Some (frames m !! a) /\ old <> Some a) as [Hlive Hoa].
    { destruct old as [b|]; [|split; [exact Ha|discriminate]].
      destruct (decide (b = a)) as [->|Hba].
      - rewrite lookup_delete_eq in Ha. now destruct Ha.
      - rewrite lookup_delete_ne in Ha by exact Hba. split; [exact Ha|congruence]. }
    destruct (W3 _ Hlive) as [h Hh].
    assert (h <> this) as Hht.
    { intros ->. destruct old as [b|]; [congruence|exact (Hold _ Hh)]. }
    destruct (decide (h = r)) as [->|Hhr].
    + exists this. rewrite lookup_insert_ne by congruence.
      rewrite lookup_insert_eq. congruence.
    + exists h. now rewrite !lookup_insert_ne by congruence.
Qed.

Lemma move_construct_well_owned m r rco :
  well_owned m -> handles m !! r = Some rco ->
  well_owned (move_construct r m).2.
Proof.
  intros Hw Hr. destruct (move_construct_returns _ _ _ Hr) as [Hne ->].
  apply (handed_over_well_owned m r _ rco None Hw Hne Hr).
  intros b. now rewrite fresh_handle_unused.
Qed.

Lemma move_assign_returns m this r tco rco :
  well_owned m -> handles m !! this = Some tco -> handles m !! r = Some rco ->
  exists m', move_assign this r m = (Returned tt, m') /\ well_owned m'.
Proof.
  intros Hw Ht Hr. destruct (decide (this = r)) as [->|Hne].
  - rewrite move_assign_self. eauto.
  - destruct tco as [b|].
    + destruct Hw as (W1 & W2 & W3). destruct (W1 _ _ Ht) as [fb Hfb].
      rewrite (move_assign_owned m this r b fb rco Hne (conj Ht Hfb) Hr).
      eexists. split; [reflexivity|].
      exact (handed_over_well_owned m r this rco (Some b)
               (conj W1 (conj W2 W3)) Hne Hr Ht).
    + rewrite (move_assign_empty m this r rco Hne Ht Hr).
      eexists. split; [reflexivity|].
      apply (handed_over_well_owned m r this rco None Hw Hne Hr).
      intros b. congruence.
Qed.

Lemma destructor_returns m this tco :
  well_owned m -> handles m !! this = Some tco ->
  destructor this m =
    (Returned tt,
     {| frames := match tco with Some b => delete b (frames m) | None => frames m end;
        handles := delete this (handles m) |})
  /\ well_owned (destructor this m).2.
Proof.
  intros (W1 & W2 & W3) Ht.
  assert (destructor this m =
    (Returned tt,
     {| frames := match tco with Some b => delete b (frames m) | None => frames m end;
        handles := delete this (handles m) |})) as ->.
  { unfold destructor, bind, get_co, co_destroy, bind, frame_at, ret.
    rewrite Ht. destruct tco as [b|]; simpl; [|reflexivity].
    destruct (W1 _ _ Ht) as [fb ->]. reflexivity. }
  split; [reflexivity|]. split; [|split]; simpl.
  - intros h a. rewrite lookup_delete. case_decide as Hh; [discriminate|].
    intros Ha. destruct tco as [b|]; [|exact (W1 _ _ Ha)].
    rewrite lookup_delete_ne; [exact (W1 _ _ Ha)|].
    intros ->. exact (Hh (W2 _ _ _ Ht Ha)).
  - intros h1 h2 a. rewrite !lookup_delete. repeat case_decide; try discriminate.
    apply W2.
  - intros a Ha.
    assert (is_Some (frames m !! a) /\ tco <> Some a) as [Hlive Hta].
    { destruct tco as [b|]; [|split; [exact Ha|discriminate]].
      destruct (decide (b = a)) as [->|Hba].
      - rewrite lookup_delete_eq in Ha. now destruct Ha.
      - rewrite lookup_delete_ne in Ha by exact Hba. split; [exact Ha|congruence]. }
    destruct (W3 _ Hlive) as [h Hh]. exists h.
    rewrite lookup_delete_ne; [exact Hh|]. intros ->. congruence.
Qed.

(** X3: calling a coroutine function in a memory with exclusive ownership
    and consistent frames gives a new object, at an address where no object
    was, that owns a new frame, at an address where no frame was; the frame
    is suspended at the entry of the body with the value-initialised [T]
    (nothing of the body has run), every other object and frame is as
    before, and both invariants still hold. *)
Theorem X3_call_coroutine_makes_a_fresh_owner (entry : St) m this m0 :
  well_owned m -> consistent m ->
  call_coroutine default_value entry m = (Returned this, m0) ->
  handles m !! this = None
  /\ (exists a, frames m !! a = None
                /\ owns m0 this a (initial_frame default_value entry)
                /\ forall b, b <> a -> frames m0 !! b = frames m !! b)
  /\ (forall h, h <> this -> handles m0 !! h = handles m !! h)
  /\ well_owned m0 /\ consistent m0.
Proof.
  intros Hw Hc Hcall.
  pose proof (call_coroutine_well_owned entry m Hw) as Hw'.
  pose proof (call_coroutine_consistent entry m Hc) as Hc'.
  rewrite Hcall in Hw', Hc'. unfold call_coroutine in Hcall.
  injection Hcall as <- <-.
  split; [apply fresh_handle_unused|]. split.
  - exists (fresh (dom (frames m))). split; [apply fresh_frame_unused|].
    split; [split; simpl; apply lookup_insert_eq|].
    intros b Hb. simpl. apply lookup_insert_ne. congruence.
  - split; [|auto]. intros h Hh. simpl. apply lookup_insert_ne. congruence.
Qed.

(** X4: in a memory with exclusive ownership, move construction from any
    live object returns a new object, at an address where no object was,
    that holds what the source held; the source is left empty, no frame is
    touched, and ownership is still exclusive. *)
Theorem X4_move_construct_keeps_ownership_exclusive m r rco :
  well_owned m -> handles m !! r = Some rco ->
  exists this m',
    move_construct r m = (Returned this, m')
    /\ handles m !! this = None
    /\ handles m' !! this = Some rco
    /\ empty_handle m' r
    /\ frames m' = frames m
    /\ well_owned m'.
Proof.
  intros Hw Hr. pose proof (move_construct_well_owned m r rco Hw Hr) as Hw'.
  destruct (move_construct_returns _ _ _ Hr) as [Hne Heq]. rewrite Heq in Hw'.
  eexists _, _. split; [exact Heq|]. split; [apply fresh_handle_unused|].
  unfold empty_handle. simpl.
  split; [rewrite lookup_insert_ne by congruence; apply lookup_insert_eq|].
  split; [apply lookup_insert_eq|]. split; [reflexivity|exact Hw'].
Qed.

(** X5: in a memory with exclusive ownership, move assignment between any
    two live objects returns (it never destroys a frame that is not there
    and never leaves a handle to a destroyed frame) and keeps ownership
    exclusive.  When the objects differ, the target holds what the source
    held, the source is empty, and the only frame destroyed is the one the
    target held. *)
Theorem X5_move_assign_keeps_ownership_exclusive m this r tco rco :
  well_owned m -> handles m !! this = Some tco -> handles m !! r = Some rco ->
  exists m',
    move_assign this r m = (Returned tt, m')
    /\ well_owned m'
    /\ (this <> r ->
        handles m' !! this = Some rco
        /\ empty_handle m' r
        /\ frames m' = match tco with
                       | Some b => delete b (frames m)
                       | None => frames m
                       end).
Proof.
  intros Hw Ht Hr.
  destruct (move_assign_returns m this r tco rco Hw Ht Hr) as (m' & Heq & Hw').
  exists m'. split; [exact Heq|]. split; [exact Hw'|]. intros Hne.
  destruct tco as [b|].
  - destruct Hw as (W1 & _). destruct (W1 _ _ Ht) as [fb Hfb].
    rewrite (move_assign_owned m this r b fb rco Hne (conj Ht Hfb) Hr) in Heq.
    injection Heq as <-. unfold empty_handle. simpl.
    split; [rewrite lookup_insert_ne by congruence; apply lookup_insert_eq|].
    split; [apply lookup_insert_eq|reflexivity].
  - rewrite (move_assign_empty m this r rco Hne Ht Hr) in Heq.
    injection Heq as <-. unfold empty_handle. simpl.
    split; [rewrite lookup_insert_ne by congruence; apply lookup_insert_eq|].
    split; [apply lookup_insert_eq|reflexivity].
Qed.

(** X6: in a memory with exclusive ownership, destroying any live object
    returns, whether its coroutine has finished, is suspended half way or
    was moved away: the object is gone, the frame it held (if any) is
    destroyed, every other object and frame is as before, and ownership is
    still exclusive (no handle is left dangling, no frame is left
    without an owner). *)
Theorem X6_destructor_releases_exactly_its_frame m this tco :
  well_owned m -> handles m !! this = Some tco ->
  exists m',
    destructor this m = (Returned tt, m')
    /\ handles m' !! this = None
    /\ (forall h, h <> this -> handles m' !! h = handles m !! h)
    /\ (forall a, tco = Some a -> frames m' !! a = None)
    /\ (forall a, tco <> Some a -> frames m' !! a = frames m !! a)
    /\ well_owned m'.
Proof.
  intros Hw Ht. destruct (destructor_returns m this tco Hw Ht) as [Heq Hw'].
  rewrite Heq in Hw'. eexists. split; [exact Heq|]. simpl.
  split; [apply lookup_delete_eq|].
  split; [intros h Hh; apply lookup_delete_ne; congruence|].
  split; [intros a ->; apply lookup_delete_eq|].
  split; [|exact Hw'].
  intros a Ha. destruct tco as [b|]; [|reflexivity].
  apply lookup_delete_ne. congruence.
Qed.

(** ** From creation to destruction *)

Lemma destructor_owned m this a f :
  owns m this a f ->
  destructor this m =
    (Returned tt,
     {| frames := delete a (frames m); handles := delete this (handles m) |}).
Proof.
  intros [Hh Hf]. unfold destructor, bind, get_co, co_destroy, bind, frame_at, ret.
  rewrite Hh. simpl. now rewrite Hf.
Qed.

Lemma perform_operate_from_creation
    (rbody : Body Routine) (gbody : Body Generator) this a
    (F : gmap nat Frame) (H : gmap nat (option nat)) os :
  forall m f,
    frames m = <[a := f]> F -> handles m = <[this := Some a]> H ->
    exists f',
      frames (perform (map (operate picked rbody gbody this) os) m).2 = <[a := f']> F
      /\ handles (perform (map (operate picked rbody gbody this) os) m).2
         = <[this := Some a]> H.
Proof.
  induction os as [|o os IH]; intros m f Hf Hh; [simpl; eauto|].
  assert (exists f1, frames (operate picked rbody gbody this o m).2 = <[a := f1]> F
                     /\ handles (operate picked rbody gbody this o m).2
                        = <[this := Some a]> H) as (f1 & Hf1 & Hh1).
  { destruct (operate_effect rbody gbody this o m)
      as [-> | (a' & f0 & f' & [Ho _] & -> & _)]; [eauto|].
    rewrite Hh, lookup_insert_eq in Ho. injection Ho as <-.
    exists f'. simpl. rewrite Hf, insert_insert_eq. auto. }
  simpl. destruct (operate picked rbody gbody this o m) as [out m1]. simpl in Hf1, Hh1.
  destruct (IH m1 f1 Hf1 Hh1) as (f2 & Hf2 & Hh2).
  destruct (perform (map (operate picked rbody gbody this) os) m1) as [outs m2].
  destruct out; simpl in *; eauto.
Qed.

(** X7: a coroutine that is created, driven and read by any operations in
    any number and order (finished or abandoned half way, whatever they
    answered) and then destroyed leaves the memory exactly as it was before
    the coroutine function was called. *)
Theorem X7_create_use_destroy_restores_the_memory
    (rbody : Body Routine) (gbody : Body Generator) (entry : St) os m this m0 :
  call_coroutine default_value entry m = (Returned this, m0) ->
  destructor this (perform (map (operate picked rbody gbody this) os) m0).2
    = (Returned tt, m).
Proof.
  unfold call_coroutine. intros [= <- <-].
  set (this := fresh (dom (handles m))). set (a := fresh (dom (frames m))).
  destruct (perform_operate_from_creation rbody gbody this a (frames m) (handles m) os
              {| frames := <[a := initial_frame default_value entry]> (frames m);
                 handles := <[this := Some a]> (handles m) |}
              _ eq_refl eq_refl) as (f' & Hf & Hh).
  destruct (perform _ _) as [outs m1]. simpl in Hf, Hh. cbn [snd].
  rewrite (destructor_owned m1 this a f');
    [|split; [rewrite Hh|rewrite Hf]; apply lookup_insert_eq].
  rewrite Hf, Hh.
  rewrite (delete_insert_id _ _ _ (fresh_frame_unused m)).
  rewrite (delete_insert_id _ _ _ (fresh_handle_unused m)).
  now destruct m.
Qed.

(** ** [Pick] *)

(** X8: for a routine whose body suspends [k] times and then returns [v],
    [Pick] fails its assertion, and changes nothing, after any [i <= k]
    calls of [Do]; after any [i > k] calls it returns [v], the same as
    [Get] would, and leaves the moved-from value behind: the routine is
    still terminated, [Do] still returns [false], and [Get] then returns
    what the move left. *)
Theorem X8_Pick_takes_the_returned_value
    (body : Body Routine) (entry : St) (k : nat) (v : T) m this m0 :
  suspends_then body entry k (co_return v) ->
  call_coroutine default_value entry m = (Returned this, m0) ->
  (forall i, i <= k ->
     Pick picked this (calls (Do body this) i m0).2
       = (AssertionFailed, (calls (Do body this) i m0).2))
  /\ (forall i, k < i ->
       let mi := (calls (Do body this) i m0).2 in
       (Pick picked this mi).1 = Returned v
       /\ (Pick picked this mi).1 = (Get this mi).1
       /\ terminated (Pick picked this mi).2 this
       /\ (Do body this (Pick picked this mi).2).1 = Returned false
       /\ (Get this (Pick picked this mi).2).1 = Returned (picked v)).
Proof.
  intros Hk Hc. destruct (call_coroutine_owns _ _ _ _ Hc) as [a H].
  pose proof (initial_frame_suspended entry) as Hs. split.
  - intros i Hi.
    destruct (calls_Do_suspends body _ i k _ _ _ _ H Hs Hk Hi)
      as (m' & f' & -> & Ho & [Hd _] & _).
    cbn [snd]. now rewrite (Pick_owned _ _ _ _ Ho), Hd.
  - intros i Hi. replace i with (k + S (i - S k)) by lia.
    destruct (calls_Do_returns body k v (i - S k) _ _ _ _ H Hs Hk)
      as (m' & f' & -> & Ho & Hd & Hv).
    cbv zeta. cbn [snd].
    rewrite (Pick_owned _ _ _ _ Ho), (Get_owned _ _ _ _ Ho), Hd. cbn [fst snd].
    pose proof (owns_put _ _ _ _
                  {| pc := pc f'; done := true;
                     promise := {| exc := exc (promise f');
                                   value := picked (value (promise f')) |} |} Ho) as Ho'.
    split; [now rewrite Hv|]. split; [reflexivity|].
    split; [eexists _, _; split; [exact Ho'|reflexivity]|].
    rewrite (Do_done body _ _ _ _ Ho' eq_refl), (Get_owned _ _ _ _ Ho'). simpl.
    now rewrite Hv.
Qed.

(** ** [Next] and [PickNext] mixed *)

Lemma run_Generator_same_point (body : Body Generator) f1 f2 :
  same_point f1 f2 ->
  same_point (run Generator body f1) (run Generator body f2)
  /\ (done (run Generator body f1) = false ->
      value (promise (run Generator body f1))
      = value (promise (run Generator body f2))).
Proof.
  intros (Hpc & Hd & He). unfold run, same_point. rewrite Hpc.
  destruct (body (pc f2)); simpl; repeat split; try assumption; discriminate.
Qed.

Lemma one_by_one_step {A} (op : Eff A) ops m o m' :
  op m = (o, m') -> o <> AssertionFailed -> o <> UndefinedBehaviour ->
  one_by_one (op :: ops) m = (o :: (one_by_one ops m').1, (one_by_one ops m').2).
Proof.
  intros Hop Ha Hu. simpl. rewrite Hop.
  destruct o; try congruence; now destruct (one_by_one ops m').
Qed.

(** What [Next] or [PickNext] answers on a frame that is not done, and the
    frame it leaves, up to the stored value. *)
Lemma Next_or_PickNext_resumes (body : Body Generator) (b : bool) m this a f :
  owns m this a f -> done f = false ->
  exists m' f',
    (if b then PickNext picked body this else Next body this) m
      = (match exc (promise (run Generator body f)) with
         | Some e => Thrown (rethrow_exception e)
         | None => if done (run Generator body f) then Thrown (Exc errmsg)
                   else Returned (value (promise (run Generator body f)))
         end, m')
    /\ owns m' this a f' /\ same_point f' (run Generator body f).
Proof.
  intros H Hd. destruct b.
  - rewrite (PickNext_resumes body _ _ _ _ H Hd). cbv zeta.
    pose proof (owns_put _ _ _ _ (run Generator body f) H) as H'.
    destruct (exc (promise (run Generator body f))) eqn:He;
      [|destruct (done (run Generator body f)) eqn:Hd'].
    + eexists _, _. split; [reflexivity|]. split; [exact H'|apply same_point_refl].
    + eexists _, _. split; [reflexivity|]. split; [exact H'|apply same_point_refl].
    + eexists _, _. split; [reflexivity|].
      split; [exact (owns_put _ _ _ _ _ H')|]. repeat split; simpl; congruence.
  - rewrite (Next_resumes body _ _ _ _ H Hd).
    eexists _, _. split; [reflexivity|].
    split; [exact (owns_put _ _ _ _ _ H)|apply same_point_refl].
Qed.

Lemma mixed_Next_PickNext (body : Body Generator) bs :
  forall m1 h1 a1 f1 m2 h2 a2 f2,
    owns m1 h1 a1 f1 -> owns m2 h2 a2 f2 -> same_point f1 f2 ->
    (one_by_one (map (fun b : bool => if b then PickNext picked body h1
                                       else Next body h1) bs) m1).1
    = (calls (Next body h2) (length bs) m2).1.
Proof.
  induction bs as [|b bs IH]; intros m1 h1 a1 f1 m2 h2 a2 f2 H1 H2 Hsp;
    [reflexivity|].
  pose proof Hsp as (_ & Hdd & _).
  change (length (b :: bs)) with (S (length bs)).
  change (map ?g (b :: bs)) with (g b :: map g bs). cbv beta.
  destruct (done f2) eqn:Hd2.
  - assert ((if b then PickNext picked body h1 else Next body h1) m1
            = (Thrown (Exc errmsg), m1)) as E1.
    { destruct b; [apply (PickNext_done body _ _ _ _ H1)|apply (Next_done body _ _ _ _ H1)];
        congruence. }
    rewrite (one_by_one_step _ _ _ _ _ E1), (calls_step _ _ _ _ _ (Next_done body _ _ _ _ H2 Hd2));
      try discriminate.
    cbn [fst]. f_equal. exact (IH _ _ _ _ _ _ _ _ H1 H2 Hsp).
  - destruct (Next_or_PickNext_resumes body b _ _ _ _ H1 ltac:(congruence))
      as (m1' & f1' & E1 & H1' & Hsp1).
    pose proof (Next_resumes body _ _ _ _ H2 Hd2) as E2.
    destruct (run_Generator_same_point body _ _ Hsp) as [Hrun Hval].
    pose proof Hrun as (_ & Hrd & Hre).
    assert (match exc (promise (run Generator body f1)) with
            | Some e => Thrown (rethrow_exception e)
            | None => if done (run Generator body f1) then Thrown (Exc errmsg)
                      else Returned (value (promise (run Generator body f1)))
            end
            = match exc (promise (run Generator body f2)) with
              | Some e => Thrown (rethrow_exception e)
              | None => if done (run Generator body f2) then Thrown (Exc errmsg)
                        else Returned (value (promise (run Generator body f2)))
              end) as Hout.
    { rewrite Hre. destruct (exc (promise (run Generator body f2))); [reflexivity|].
      rewrite <- Hrd. destruct (done (run Generator body f1)) eqn:Hd1; [reflexivity|].
      now rewrite Hval. }
    rewrite Hout in E1.
    rewrite (one_by_one_step _ _ _ _ _ E1), (calls_step _ _ _ _ _ E2);
      try (destruct (exc (promise (run Generator body f2)));
           [|destruct (done (run Generator body f2))]; discriminate).
    cbn [fst]. f_equal.
    apply (IH _ _ _ _ _ _ _ _ H1' (owns_put _ _ _ _ _ H2)).
    destruct Hsp1 as (P1 & P2 & P3). destruct Hrun as (Q1 & Q2 & Q3).
    repeat split; congruence.
Qed.

(** X9: on any generator handle with a live frame, a run of calls in which
    each call is [Next] or [PickNext], in any mixture, answers call by call
    what the same number of calls of [Next] alone answers: the same values
    in the same order, the same exceptions at the same places.  Moving a
    value out never disturbs what is delivered later. *)
Theorem X9_PickNext_and_Next_mix_freely
    (body : Body Generator) (bs : list bool) m this a f :
  owns m this a f ->
  (one_by_one (map (fun b : bool => if b then PickNext picked body this
                                     else Next body this) bs) m).1
  = (calls (Next body this) (length bs) m).1.
Proof.
  intros H. exact (mixed_Next_PickNext body bs _ _ _ _ _ _ _ _ H H (same_point_refl f)).
Qed.

(** ** What is thrown, and when *)

(** Without a live frame behind [this] nothing is thrown. *)
Ltac no_throw Hh Hf :=
  unfold bind, get_co, co_done, co_promise, co_resume, frame_at, bind; simpl;
  rewrite ?Hh; simpl; rewrite ?Hf; simpl; discriminate.

Lemma captured_means_done R (body : Body R) f e :
  suspended f -> exc (promise (run R body f)) = Some e ->
  done (run R body f) = true.
Proof.
  intros Hs He. destruct (run_suspended_or_done R body f Hs) as [[_ Hn] | Hd];
    [congruence|exact Hd].
Qed.

(** The states of the object behind a call. *)
Ltac by_handle m this a f Hh Hf H :=
  destruct (handles m !! this) as [[a|]|] eqn:Hh;
    [destruct (frames m !! a) as [f|] eqn:Hf;
       [assert (owns m this a f) as H by (split; assumption)|]|..].

Lemma frame_suspended m a f :
  consistent m -> frames m !! a = Some f -> done f = false -> suspended f.
Proof. intros Hc Hf Hd. destruct (Hc _ _ Hf) as [Hs | Hd']; [exact Hs|congruence]. Qed.

Lemma captured_by_routine_throw (rbody : Body Routine) f e :
  suspended f -> exc (promise (run Routine rbody f)) = Some e ->
  rbody (pc f) = routine_throw e.
Proof.
  intros [_ He]. unfold run, return_value, unhandled_exception.
  destruct (rbody (pc f)); simpl; intros Hx; congruence.
Qed.

Lemma captured_by_generator_throw (gbody : Body Generator) f e :
  suspended f -> exc (promise (run Generator gbody f)) = Some e ->
  gbody (pc f) = generator_throw e.
Proof.
  intros [_ He]. unfold run, yield_value, return_void, unhandled_exception.
  destruct (gbody (pc f)); simpl; intros Hx; congruence.
Qed.

Lemma ended_without_yield (gbody : Body Generator) f :
  exc (promise (run Generator gbody f)) = None ->
  done (run Generator gbody f) = true ->
  gbody (pc f) = co_return_void.
Proof.
  unfold run, yield_value, return_void, unhandled_exception.
  destruct (gbody (pc f)); simpl; intros Hx Hd; congruence.
Qed.

Lemma Do_thrown (rbody : Body Routine) m this x :
  consistent m -> (Do rbody this m).1 = Thrown x ->
  exists a f e,
    owns m this a f /\ done f = false /\ rbody (pc f) = routine_throw e
    /\ x = rethrow_exception e /\ terminated (Do rbody this m).2 this.
Proof.
  intros Hc. by_handle m this a f Hh Hf H; [|unfold Do; no_throw Hh Hf..].
  destruct (done f) eqn:Hd; [now rewrite (Do_done rbody _ _ _ _ H Hd)|].
  pose proof (frame_suspended _ _ _ Hc Hf Hd) as Hs.
  rewrite (Do_resumes rbody _ _ _ _ H Hd). cbn [fst snd].
  destruct (exc (promise (run Routine rbody f))) as [e|] eqn:He; [|discriminate].
  intros [= <-]. exists a, f, e. split; [exact H|]. split; [exact Hd|].
  split; [exact (captured_by_routine_throw rbody f e Hs He)|]. split; [reflexivity|].
  exists a, (run Routine rbody f). split; [exact (owns_put _ _ _ _ _ H)|].
  exact (captured_means_done Routine rbody f e Hs He).
Qed.

Lemma begin_thrown (gbody : Body Generator) m this x :
  consistent m -> (begin gbody this m).1 = Thrown x ->
  exists a f e,
    owns m this a f /\ done f = false /\ gbody (pc f) = generator_throw e
    /\ x = rethrow_exception e /\ terminated (begin gbody this m).2 this.
Proof.
  intros Hc. by_handle m this a f Hh Hf H;
    [|unfold begin, Iterator_ctor; no_throw Hh Hf..].
  destruct (done f) eqn:Hd; [now rewrite (begin_done gbody _ _ _ _ H Hd)|].
  pose proof (frame_suspended _ _ _ Hc Hf Hd) as Hs.
  rewrite (begin_resumes gbody _ _ _ _ H Hd). cbv zeta. cbn [fst snd].
  destruct (exc (promise (run Generator gbody f))) as [e|] eqn:He; [|discriminate].
  intros [= <-]. exists a, f, e. split; [exact H|]. split; [exact Hd|].
  split; [exact (captured_by_generator_throw gbody f e Hs He)|]. split; [reflexivity|].
  exists a, (run Generator gbody f). split; [exact (owns_put _ _ _ _ _ H)|].
  exact (captured_means_done Generator gbody f e Hs He).
Qed.

Lemma incr_thrown (gbody : Body Generator) m this x :
  consistent m -> (incr gbody {| gen := Some this |} m).1 = Thrown x ->
  exists a f e,
    owns m this a f /\ done f = false /\ gbody (pc f) = generator_throw e
    /\ x = rethrow_exception e
    /\ terminated (incr gbody {| gen := Some this |} m).2 this.
Proof.
  intros Hc. by_handle m this a f Hh Hf H; [|unfold incr; no_throw Hh Hf..].
  rewrite (incr_owned gbody _ _ _ _ H). cbv zeta.
  destruct (done f) eqn:Hd; [discriminate|].
  pose proof (frame_suspended _ _ _ Hc Hf Hd) as Hs.
  cbn [fst snd].
  destruct (exc (promise (run Generator gbody f))) as [e|] eqn:He; [|discriminate].
  intros [= <-]. exists a, f, e. split; [exact H|]. split; [exact Hd|].
  split; [exact (captured_by_generator_throw gbody f e Hs He)|]. split; [reflexivity|].
  exists a, (run Generator gbody f). split; [exact (owns_put _ _ _ _ _ H)|].
  exact (captured_means_done Generator gbody f e Hs He).
Qed.

Lemma Get_never_throws m this x : (Get this m).1 <> Thrown x.
Proof.
  by_handle m this a f Hh Hf H; [|unfold Get; no_throw Hh Hf..].
  rewrite (Get_owned _ _ _ _ H). now destruct (done f).
Qed.

Lemma deref_never_throws m this x : (deref {| gen := Some this |} m).1 <> Thrown x.
Proof.
  by_handle m this a f Hh Hf H; [|unfold deref; no_throw Hh Hf..].
  now rewrite (deref_owned _ _ _ _ H).
Qed.

Lemma Next_thrown (gbody : Body Generator) m this x :
  consistent m -> (Next gbody this m).1 = Thrown x ->
  exists a f,
    owns m this a f /\ terminated (Next gbody this m).2 this
    /\ ((x = Exc errmsg /\ (done f = true \/ gbody (pc f) = co_return_void))
        \/ (exists e, x = rethrow_exception e /\ done f = false
                       /\ gbody (pc f) = generator_throw e)).
Proof.
  intros Hc. by_handle m this a f Hh Hf H; [|unfold Next; no_throw Hh Hf..].
  intros Hx. exists a, f. split; [exact H|].
  destruct (done f) eqn:Hd.
  { rewrite (Next_done gbody _ _ _ _ H Hd) in Hx |- *. injection Hx as <-.
    split; [exists a, f; auto|]. left. auto. }
  pose proof (frame_suspended _ _ _ Hc Hf Hd) as Hs.
  pose proof (owns_put _ _ _ _ (run Generator gbody f) H) as H'.
  rewrite (Next_resumes gbody _ _ _ _ H Hd) in Hx |- *. cbn [fst snd] in *.
  destruct (exc (promise (run Generator gbody f))) as [e|] eqn:He.
  - injection Hx as <-. split.
    + exists a, (run Generator gbody f). split; [exact H'|].
      exact (captured_means_done Generator gbody f e Hs He).
    + right. exists e. split; [reflexivity|]. split; [reflexivity|].
      exact (captured_by_generator_throw gbody f e Hs He).
  - destruct (done (run Generator gbody f)) eqn:Hd'; [|discriminate].
    injection Hx as <-. split; [exists a, (run Generator gbody f); auto|].
    left. split; [reflexivity|]. right. exact (ended_without_yield gbody f He Hd').
Qed.

Lemma PickNext_thrown (gbody : Body Generator) m this x :
  consistent m -> (PickNext picked gbody this m).1 = Thrown x ->
  exists a f,
    owns m this a f /\ terminated (PickNext picked gbody this m).2 this
    /\ ((x = Exc errmsg /\ (done f = true \/ gbody (pc f) = co_return_void))
        \/ (exists e, x = rethrow_exception e /\ done f = false
                       /\ gbody (pc f) = generator_throw e)).
Proof.
  intros Hc. by_handle m this a f Hh Hf H; [|unfold PickNext; no_throw Hh Hf..].
  intros Hx. exists a, f. split; [exact H|].
  destruct (done f) eqn:Hd.
  { rewrite (PickNext_done gbody _ _ _ _ H Hd) in Hx |- *. injection Hx as <-.
    split; [exists a, f; auto|]. left. auto. }
  pose proof (frame_suspended _ _ _ Hc Hf Hd) as Hs.
  pose proof (owns_put _ _ _ _ (run Generator gbody f) H) as H'.
  rewrite (PickNext_resumes gbody _ _ _ _ H Hd) in Hx |- *. cbv zeta in *.
  destruct (exc (promise (run Generator gbody f))) as [e|] eqn:He.
  - injection Hx as <-. split.
    + exists a, (run Generator gbody f). split; [exact H'|].
      exact (captured_means_done Generator gbody f e Hs He).
    + right. exists e. split; [reflexivity|]. split; [reflexivity|].
      exact (captured_by_generator_throw gbody f e Hs He).
  - destruct (done (run Generator gbody f)) eqn:Hd'; [|discriminate].
    injection Hx as <-. split; [exists a, (run Generator gbody f); auto|].
    left. split; [reflexivity|]. right. exact (ended_without_yield gbody f He Hd').
Qed.

(** X10: where a thrown exception comes from, in any memory whose frames
    are suspended or done.  [Do], [begin] and [operator++] throw at one
    place only, [Rethrow]: when one of them throws, the frame was not
    done, the step of the body it resumed was a throw of some [e], what
    leaves is that same [e], rethrown, and the frame is terminated
    afterwards.  [Get] and [operator*] throw nothing.  When [Next] or
    [PickNext] throws, the frame is terminated afterwards, and either it
    is their own [throw Exc(errmsg)], and then the frame was done already
    or the body ended in this resumption without a yield, or it is the [e]
    that the body threw in this resumption, rethrown. *)
Theorem X10_what_is_thrown
    (rbody : Body Routine) (gbody : Body Generator) m this x :
  consistent m ->
  ((Do rbody this m).1 = Thrown x ->
     exists a f e,
       owns m this a f /\ done f = false /\ rbody (pc f) = routine_throw e
       /\ x = rethrow_exception e /\ terminated (Do rbody this m).2 this)
  /\ ((begin gbody this m).1 = Thrown x ->
     exists a f e,
       owns m this a f /\ done f = false /\ gbody (pc f) = generator_throw e
       /\ x = rethrow_exception e /\ terminated (begin gbody this m).2 this)
  /\ ((incr gbody {| gen := Some this |} m).1 = Thrown x ->
     exists a f e,
       owns m this a f /\ done f = false /\ gbody (pc f) = generator_throw e
       /\ x = rethrow_exception e
       /\ terminated (incr gbody {| gen := Some this |} m).2 this)
  /\ (Get this m).1 <> Thrown x
  /\ (deref {| gen := Some this |} m).1 <> Thrown x
  /\ ((Next gbody this m).1 = Thrown x ->
     exists a f,
       owns m this a f /\ terminated (Next gbody this m).2 this
       /\ ((x = Exc errmsg /\ (done f = true \/ gbody (pc f) = co_return_void))
           \/ (exists e, x = rethrow_exception e /\ done f = false
                          /\ gbody (pc f) = generator_throw e)))
  /\ ((PickNext picked gbody this m).1 = Thrown x ->
     exists a f,
       owns m this a f /\ terminated (PickNext picked gbody this m).2 this
       /\ ((x = Exc errmsg /\ (done f = true \/ gbody (pc f) = co_return_void))
           \/ (exists e, x = rethrow_exception e /\ done f = false
                          /\ gbody (pc f) = generator_throw e))).
Proof.
  intros Hc.
  split; [exact (Do_thrown rbody m this x Hc)|].
  split; [exact (begin_thrown gbody m this x Hc)|].
  split; [exact (incr_thrown gbody m this x Hc)|].
  split; [apply Get_never_throws|].
  split; [apply deref_never_throws|].
  split; [exact (Next_thrown gbody m this x Hc)|].
  exact (PickNext_thrown gbody m this x Hc).
Qed.

(** ** The iterator after [begin] and [operator++] *)

Lemma calls_deref_owned n m this a f :
  owns m this a f ->
  calls (deref {| gen := Some this |}) n m = (repeat (Returned (value (promise f))) n, m).
Proof.
  intros H. apply calls_fixed; [|discriminate..]. exact (deref_owned _ _ _ _ H).
Qed.

(** X11: on a generator that is not terminated, [begin] and [operator++]
    do the same: both resume the body once.  If it yields [v], the iterator
    they give is not at the end and [operator*] on it returns [v], as often
    as it is asked and without resuming anything.  If the body ends, the
    iterator is the end iterator (the default-constructed one), on which
    [operator*] fails its assertion and [operator++] dereferences a null
    pointer.  If the body throws, the exception leaves [begin] or
    [operator++]. *)
Theorem X11_iterator_after_begin_or_increment
    (body : Body Generator) m this a f :
  owns m this a f -> suspended f ->
  let m' := set_frames <[a := run Generator body f]> m in
  match body (pc f) with
  | co_yield v _ =>
      begin body this m = (Returned {| gen := Some this |}, m')
      /\ incr body {| gen := Some this |} m = (Returned {| gen := Some this |}, m')
      /\ not_end {| gen := Some this |} = true
      /\ forall n, calls (deref {| gen := Some this |}) n m'
                   = (repeat (Returned v) n, m')
  | co_return_void =>
      begin body this m = (Returned Iterator_default, m')
      /\ incr body {| gen := Some this |} m = (Returned Iterator_default, m')
      /\ not_end Iterator_default = false
      /\ deref Iterator_default m' = (AssertionFailed, m')
      /\ incr body Iterator_default m' = (UndefinedBehaviour, m')
  | generator_throw e =>
      begin body this m = (Thrown (rethrow_exception e), m')
      /\ incr body {| gen := Some this |} m = (Thrown (rethrow_exception e), m')
  end.
Proof.
  intros H Hs m'. pose proof Hs as [Hd He].
  rewrite (begin_resumes body _ _ _ _ H Hd), (incr_owned body _ _ _ _ H), Hd.
  cbv zeta. fold m'.
  pose proof (owns_put _ _ _ _ (run Generator body f) H) as H'. fold m' in H'.
  destruct (body (pc f)) as [v next| |e] eqn:Hb.
  - destruct (Next_co_yield body _ _ _ _ _ _ H Hs Hb) as (_ & [Hd' He'] & _ & Hv).
    rewrite He', Hd'. repeat split.
    intros n. rewrite (calls_deref_owned n _ _ _ _ H'). now rewrite Hv.
  - destruct (Next_co_return_void body _ _ _ _ H Hs Hb) as (_ & Hd').
    assert (exc (promise (run Generator body f)) = None) as He'.
    { now rewrite (run_co_return_void body f Hb). }
    rewrite He', Hd'. repeat split.
  - rewrite (run_generator_throw body f e Hb). simpl. split; reflexivity.
Qed.

(** ** Moving there and back *)

(** X12: moving a handle into a new object and move-assigning it back
    returns both times, leaves the new object empty and the original object
    holding its frame again; no frame and no other object has changed, and
    the original answers [Do] and [Next] as if it had never been moved. *)
Theorem X12_moving_there_and_back
    (rbody : Body Routine) (gbody : Body Generator) m r a f :
  owns m r a f ->
  exists this m' m'',
    move_construct r m = (Returned this, m')
    /\ move_assign r this m' = (Returned tt, m'')
    /\ owns m'' r a f
    /\ empty_handle m'' this
    /\ frames m'' = frames m
    /\ (forall h, h <> this -> handles m'' !! h = handles m !! h)
    /\ (forall n, (calls (Do rbody r) n m'').1 = (calls (Do rbody r) n m).1)
    /\ (forall n, (calls (Next gbody r) n m'').1 = (calls (Next gbody r) n m).1).
Proof.
  intros H. pose proof H as [Hh Hf].
  destruct (move_construct_returns _ _ _ Hh) as [Hne Hmc].
  set (this := fresh (dom (handles m))) in *.
  eexists this, _, _. split; [exact Hmc|].
  rewrite (move_assign_empty _ r this (Some a)); [|congruence|..].
  2: { unfold empty_handle. simpl. apply lookup_insert_eq. }
  2: { simpl. rewrite lookup_insert_ne by congruence. apply lookup_insert_eq. }
  split; [reflexivity|].
  assert (owns (set_handles (fun h => <[this := None]> (<[r := Some a]> h))
                  (set_handles (fun h => <[r := None]> (<[this := Some a]> h)) m))
               r a f) as H''.
  { split; simpl; [|exact Hf].
    rewrite lookup_insert_ne by congruence. apply lookup_insert_eq. }
  split; [exact H''|]. unfold empty_handle. simpl.
  split; [apply lookup_insert_eq|]. split; [reflexivity|]. split.
  - intros h Hht. rewrite lookup_insert_ne by congruence.
    destruct (decide (h = r)) as [->|Hhr].
    + now rewrite lookup_insert_eq.
    + now rewrite !lookup_insert_ne by congruence.
  - split; intros n.
    + exact (calls_Do_same_frame rbody n _ _ _ _ _ _ _ H'' H).
    + exact (calls_Next_same_frame gbody n _ _ _ _ _ _ _ H'' H).
Qed.

End Properties.

(** * Instances on the test coroutines *)

Lemma C1_witness :
  (calls (Next Autotest.SimpleGenerator 0) (3 + 2) Autotest.created).1
  = [Returned 1%Z; Returned 2%Z; Returned 3%Z;
     Thrown (Exc errmsg); Thrown (Exc errmsg)].
Proof.
  apply (C1_Next_returns_yields_then_stays_exhausted 0%Z Autotest.SimpleGenerator
           0 [1%Z; 2%Z; 3%Z] 2 Autotest.empty_memory 0).
  - simpl. repeat split.
  - reflexivity.
Defined.

Lemma C2_witness :
  (forall j, (calls (Do Autotest.StepRoutine 0) (2 + S j) Autotest.created).1
             = repeat (Returned true) 2 ++ repeat (Returned false) (S j))
  /\ (forall i, i <= 2 ->
        (Get 0 (calls (Do Autotest.StepRoutine 0) i Autotest.created).2).1
        = AssertionFailed)
  /\ (forall i g, 2 < i ->
        (calls (Get 0) g (calls (Do Autotest.StepRoutine 0) i Autotest.created).2).1
        = repeat (Returned 7%Z) g).
Proof.
  apply (C2_Do_true_k_times_then_Get 0%Z Autotest.StepRoutine 0 2 7%Z
           Autotest.empty_memory 0).
  - simpl. reflexivity.
  - reflexivity.
Defined.

Lemma C3_witness :
  (Next Autotest.SimpleGenerator 0 Autotest.created).1 = Returned 1%Z
  /\ (PickNext (fun v => v) Autotest.SimpleGenerator 0 Autotest.created).1
     = Returned 1%Z.
Proof.
  destruct (C3_Next_after_one_resume (fun v => v) Autotest.SimpleGenerator
              Autotest.created 0 0
              (initial_frame 0%Z 0)) as (_ & HN & HP & _).
  - split; reflexivity.
  - split; reflexivity.
  - split; [exact HN | rewrite HP; exact HN].
Defined.

Lemma C4_witness :
  exists m',
    Do Autotest.ThrowRoutine 0 (calls (Do Autotest.ThrowRoutine 0) 1 Autotest.created).2
      = (Thrown (rethrow_exception "boom"), m')
    /\ terminated m' 0
    /\ forall n, calls (Do Autotest.ThrowRoutine 0) n m'
                 = (repeat (Returned false) n, m').
Proof.
  apply (C4_Do_rethrows_once Autotest.ThrowRoutine
           (calls (Do Autotest.ThrowRoutine 0) 1 Autotest.created).2 0 0
           {| pc := 1; done := false;
              promise := {| exc := None; value := 0%Z |} |} "boom").
  - split; reflexivity.
  - split; reflexivity.
  - reflexivity.
Defined.

(** C5, evaluated on [RangeGenerator(1)] already consumed to its end: the
    [Next] loop consumes nothing and stops on [Exc(errmsg)] at its first
    call, so a range-for that agreed with it would consume nothing and end
    normally; the range-for consumes the stale value 0 and then lets
    [operator++] resume the finished frame. *)
Theorem C5_range_for_on_exhausted_generator_differs :
  terminated Autotest.iterated_once 0
  /\ (drain_Next (Autotest.RangeGenerator 1) 0 5 Autotest.iterated_once).1
     = ([], Escaped (Exc errmsg))
  /\ (as_range_for
        (drain_Next (Autotest.RangeGenerator 1) 0 5 Autotest.iterated_once)).1
     = ([], LoopEnded)
  /\ (range_for (Autotest.RangeGenerator 1) 0 5 Autotest.iterated_once).1
     = ([0%Z], WentUndefined)
  /\ range_for (Autotest.RangeGenerator 1) 0 5 Autotest.iterated_once
     <> as_range_for
          (drain_Next (Autotest.RangeGenerator 1) 0 5 Autotest.iterated_once).
Proof.
  split.
  - exists 0, {| pc := 1; done := true; promise := {| exc := None; value := 0%Z |} |}.
    repeat split.
  - repeat split. intros Heq. apply (f_equal (fun r => r.1.2)) in Heq.
    vm_compute in Heq. discriminate.
Qed.

(** C6, evaluated on [RangeGenerator(1)] consumed to its end by a range-for:
    the frame is terminated, and [begin] on it returns an iterator whose
    [gen] is not null, which is not equal to the end sentinel.  A second
    range-for over it consumes the stale value 0 and then lets
    [operator++] resume the finished frame. *)
Theorem C6_begin_on_exhausted_generator_is_not_end :
  (range_for (Autotest.RangeGenerator 1) 0 5 Autotest.created).1
    = ([0%Z], LoopEnded)
  /\ terminated Autotest.iterated_once 0
  /\ begin (Autotest.RangeGenerator 1) 0 Autotest.iterated_once
     = (Returned {| gen := Some 0 |}, Autotest.iterated_once)
  /\ is_end {| gen := Some 0 |} = false
  /\ (range_for (Autotest.RangeGenerator 1) 0 5 Autotest.iterated_once).1
     = ([0%Z], WentUndefined).
Proof.
  split; [reflexivity|]. split.
  - exists 0, {| pc := 1; done := true; promise := {| exc := None; value := 0%Z |} |}.
    repeat split.
  - repeat split.
Qed.

(** C7, as it is stated, fails on the test coroutines: [ThrowGenerator]
    throws in its second resumption, and the first call of [Next] returned
    1; [ThrowRoutine] throws in its second resumption, and afterwards [Get]
    passes both assertions and returns 0. *)
Lemma C7_counterexample :
  (calls (Next Autotest.ThrowGenerator 0) 2 Autotest.created).1
    = [Returned 1%Z; Thrown (rethrow_exception "gen boom")]
  /\ (calls (Do Autotest.ThrowRoutine 0) 2 Autotest.created).1
    = [Returned true; Thrown (rethrow_exception "boom")]
  /\ Get 0 Autotest.routine_failed = (Returned 0%Z, Autotest.routine_failed).
Proof. repeat split. Qed.

Lemma C7_witness :
  ((calls (Do Autotest.ThrowRoutine 0) (1 + 3) Autotest.created).1
     = [Returned true; Thrown (rethrow_exception "boom");
        Returned false; Returned false]
   /\ (calls (Get 0) 2
         (calls (Do Autotest.ThrowRoutine 0) (1 + 3) Autotest.created).2).1
     = [Returned 0%Z; Returned 0%Z])
  /\ (calls (Next Autotest.ThrowGenerator 0) (1 + 3) Autotest.created).1
     = [Returned 1%Z; Thrown (rethrow_exception "gen boom");
        Thrown (Exc errmsg); Thrown (Exc errmsg)].
Proof.
  destruct (C7_failure_on_jth_resume 0%Z Autotest.ThrowRoutine Autotest.ThrowGenerator
              0 "boom" Autotest.empty_memory 0 Autotest.created eq_refl) as [HR _].
  destruct (C7_failure_on_jth_resume 0%Z Autotest.ThrowRoutine Autotest.ThrowGenerator
              0 "gen boom" Autotest.empty_memory 0 Autotest.created eq_refl) as [_ HG].
  destruct (HR 1 2) as (HD & _ & HGet); [reflexivity|].
  destruct (HG [1%Z] 2) as (HN & _); [simpl; auto|].
  split; [split; [exact HD | exact (HGet 2)] | exact HN].
Defined.

(** C8, as it is stated, fails on a moved-from generator handle: [begin]
    on it fails no assertion but asks the null handle whether it is done,
    and moving from it once more just returns another empty handle. *)
Lemma C8_counterexample :
  (move_construct 0 Autotest.created).1 = Returned 1
  /\ empty_handle Autotest.moved 0
  /\ begin (Autotest.RangeGenerator 3) 0 Autotest.moved
     = (UndefinedBehaviour, Autotest.moved)
  /\ (move_construct 0 Autotest.moved).1 = Returned 2
  /\ empty_handle (move_construct 0 Autotest.moved).2 2.
Proof. repeat split. Qed.

Lemma C8_witness :
  empty_handle Autotest.moved 0
  /\ Do Autotest.StepRoutine 0 Autotest.moved = (AssertionFailed, Autotest.moved)
  /\ Next (Autotest.RangeGenerator 3) 0 Autotest.moved
     = (AssertionFailed, Autotest.moved)
  /\ (calls (Do Autotest.StepRoutine 1) 4 Autotest.moved).1
     = [Returned true; Returned true; Returned false; Returned false]
  /\ (calls (Next (Autotest.RangeGenerator 3) 1) 3 Autotest.moved).1
     = [Returned 0%Z; Returned 1%Z; Returned 2%Z].
Proof.
  destruct (C8_move_transfers_ownership (fun v => v) Autotest.StepRoutine
              (Autotest.RangeGenerator 3) Autotest.created 0 0
              (initial_frame 0%Z 0)) as (_ & _ & Hmoved).
  - split; reflexivity.
  - destruct (Hmoved 1 Autotest.moved) as (He & _ & HDo & _ & _ & HNext & _ & HcD & HcN & _).
    + left. reflexivity.
    + split; [exact He|]. split; [exact HDo|]. split; [exact HNext|].
      split; [rewrite (HcD 4) | rewrite (HcN 3)]; reflexivity.
Defined.

(** C9, as it is stated, fails on [RangeGenerator(1)]: after [begin] the
    iterator is not at the end; [Next] then finds the body at its end, which
    terminates the frame; [operator++] on the iterator resumes that
    terminated frame. *)
Lemma C9_counterexample :
  (begin (Autotest.RangeGenerator 1) 0 Autotest.created).1
    = Returned {| gen := Some 0 |}
  /\ (Next (Autotest.RangeGenerator 1) 0 Autotest.primed).1 = Thrown (Exc errmsg)
  /\ terminated Autotest.primed_then_exhausted 0
  /\ co_resume Generator (Autotest.RangeGenerator 1) (Some 0)
       Autotest.primed_then_exhausted
     = (UndefinedBehaviour, Autotest.primed_then_exhausted)
  /\ incr (Autotest.RangeGenerator 1) {| gen := Some 0 |}
       Autotest.primed_then_exhausted
     = (UndefinedBehaviour, Autotest.primed_then_exhausted).
Proof.
  split; [reflexivity|]. split; [reflexivity|]. split.
  - exists 0, {| pc := 1; done := true; promise := {| exc := None; value := 0%Z |} |}.
    repeat split.
  - repeat split.
Qed.

Lemma C9_witness :
  (exists os m' f',
     perform (map (serve (fun v => v) Autotest.StepRoutine (Autotest.RangeGenerator 1) 0)
                [req_Next; req_begin; req_deref; req_PickNext; req_Do; req_Pick; req_Get])
       Autotest.iterated_once = (os, m')
     /\ length os = 7
     /\ Forall (fun o => o <> AssertionFailed /\ o <> UndefinedBehaviour) os
     /\ owns m' 0 0 f' /\ done f' = true /\ pc f' = 1 /\ exc (promise f') = None)
  /\ (incr (Autotest.RangeGenerator 1) {| gen := Some 0 |} Autotest.primed).1
     <> UndefinedBehaviour.
Proof.
  split.
  - destruct (C9_terminated_stays_terminated (fun v => v) Autotest.StepRoutine
                (Autotest.RangeGenerator 1) Autotest.iterated_once 0 0
                {| pc := 1; done := true; promise := {| exc := None; value := 0%Z |} |})
      as [Hterm _]; [split; reflexivity|].
    exact (Hterm eq_refl
             [req_Next; req_begin; req_deref; req_PickNext; req_Do; req_Pick; req_Get]).
  - destruct (C9_terminated_stays_terminated (fun v => v) Autotest.StepRoutine
                (Autotest.RangeGenerator 1) Autotest.primed 0 0
                {| pc := 1; done := false; promise := {| exc := None; value := 0%Z |} |})
      as [_ Hincr]; [split; reflexivity|].
    destruct Hincr as [_ Hne]; [split; reflexivity|]. exact Hne.
Defined.

Lemma C10_witness :
  move_assign 0 0 Autotest.created_two = (Returned tt, Autotest.created_two)
  /\ exists m',
       move_assign 0 1 Autotest.created_two = (Returned tt, m')
       /\ frames m' = delete 0 (frames Autotest.created_two)
       /\ frames m' !! 0 = None
       /\ handles m' !! 0 = Some (Some 1)
       /\ empty_handle m' 1.
Proof.
  destruct (C10_move_assign_self_safe_and_destroys_old Autotest.created_two 0 1 0
              (initial_frame 0%Z 0) (Some 1)) as [Hself Hmove].
  split; [exact Hself|]. apply Hmove.
  - lia.
  - split; reflexivity.
  - reflexivity.
Defined.

(** * Further instances on the test coroutines *)

Lemma created_well_owned : well_owned Autotest.created.
Proof. apply call_coroutine_well_owned, well_owned_empty. Qed.

Lemma created_consistent : consistent Autotest.created.
Proof. apply call_coroutine_consistent, consistent_empty. Qed.

Lemma created_two_well_owned : well_owned Autotest.created_two.
Proof. apply call_coroutine_well_owned, created_well_owned. Qed.

Lemma created_owns : owns Autotest.created 0 0 (initial_frame 0%Z 0).
Proof. split; reflexivity. Qed.

Lemma RangeGenerator_yields n :
  forall j i, i + j = n ->
    yields_then (Autotest.RangeGenerator n) i (map Z.of_nat (seq i j)) co_return_void.
Proof.
  induction j as [|j IH]; intros i Hij; simpl; unfold Autotest.RangeGenerator.
  - replace (i <? n) with false; [reflexivity|].
    symmetry. apply Nat.ltb_ge. lia.
  - replace (i <? n) with true by (symmetry; apply Nat.ltb_lt; lia).
    split; [reflexivity|]. apply IH. lia.
Qed.

(** X13: for every [n], [RangeGenerator(n)] of the tests delivers
    0, 1, ..., n-1: [n + k] calls of [Next] return them in order and then
    throw [Exc(errmsg)] [k] times, and a range-for with fuel for more than
    [n] resumptions consumes exactly them and ends normally.  For [n = 0]
    the first [Next] already throws and the range-for consumes nothing. *)
Theorem X13_RangeGenerator_counts_up (n : nat) :
  (forall k,
     (calls (Next (Autotest.RangeGenerator n) 0) (n + k) Autotest.created).1
     = map (fun i => Returned (Z.of_nat i)) (seq 0 n)
         ++ repeat (Thrown (Exc errmsg)) k)
  /\ (forall fuel, n < fuel ->
       (range_for (Autotest.RangeGenerator n) 0 fuel Autotest.created).1
       = (map Z.of_nat (seq 0 n), LoopEnded)).
Proof.
  pose proof (RangeGenerator_yields n n 0 eq_refl) as Hy.
  pose proof (initial_frame_suspended (E := string) 0%Z 0) as Hs.
  split.
  - intros k.
    pose proof (calls_Next_exhausts (Autotest.RangeGenerator n) _ k _ _ _ _
                  created_owns Hs Hy) as Hc.
    rewrite length_map, length_seq in Hc. rewrite Hc. now rewrite map_map.
  - intros fuel Hlt.
    rewrite (range_for_drain_Next (Autotest.RangeGenerator n) fuel _ _ _ _ created_owns Hs).
    destruct (drain_Next_finite (Autotest.RangeGenerator n) _ _ fuel _ _ _ _
                created_owns Hs Hy) as [m' ->]; [discriminate| |reflexivity].
    now rewrite length_map, length_seq.
Qed.

Lemma X2_witness :
  well_owned
    (perform (map (operate (fun v => v) Autotest.StepRoutine Autotest.SimpleGenerator 0)
                [op_begin; op_deref; op_incr; op_Next; op_PickNext; op_incr; op_Get])
       Autotest.created_two).2
  /\ consistent
      (perform (map (operate (fun v => v) Autotest.StepRoutine Autotest.SimpleGenerator 0)
                  [op_begin; op_deref; op_incr; op_Next; op_PickNext; op_incr; op_Get])
         Autotest.created_two).2.
Proof.
  apply (X2_operations_keep_the_invariants (fun v => v) Autotest.StepRoutine
           Autotest.SimpleGenerator 0).
  - exact created_two_well_owned.
  - apply call_coroutine_consistent, created_consistent.
Defined.

Lemma X3_witness :
  handles Autotest.created !! 1 = None
  /\ (exists a, frames Autotest.created !! a = None
                /\ owns Autotest.created_two 1 a (initial_frame 0%Z 0)
                /\ forall b, b <> a ->
                     frames Autotest.created_two !! b = frames Autotest.created !! b)
  /\ (forall h, h <> 1 ->
        handles Autotest.created_two !! h = handles Autotest.created !! h)
  /\ well_owned Autotest.created_two /\ consistent Autotest.created_two.
Proof.
  apply (X3_call_coroutine_makes_a_fresh_owner 0%Z 0 Autotest.created 1
           Autotest.created_two).
  - exact created_well_owned.
  - exact created_consistent.
  - reflexivity.
Defined.

Lemma X4_witness :
  exists this m',
    move_construct 0 Autotest.created_two = (Returned this, m')
    /\ handles Autotest.created_two !! this = None
    /\ handles m' !! this = Some (Some 0)
    /\ empty_handle m' 0
    /\ frames m' = frames Autotest.created_two
    /\ well_owned m'.
Proof.
  apply (X4_move_construct_keeps_ownership_exclusive Autotest.created_two 0 (Some 0)).
  - exact created_two_well_owned.
  - reflexivity.
Defined.

Lemma X5_witness :
  exists m',
    move_assign 1 0 Autotest.created_two = (Returned tt, m')
    /\ well_owned m'
    /\ (1 <> 0 ->
        handles m' !! 1 = Some (Some 0)
        /\ empty_handle m' 0
        /\ frames m' = delete 1 (frames Autotest.created_two)).
Proof.
  apply (X5_move_assign_keeps_ownership_exclusive Autotest.created_two 1 0
           (Some 1) (Some 0)).
  - exact created_two_well_owned.
  - reflexivity.
  - reflexivity.
Defined.

Lemma X6_witness :
  exists m',
    destructor 0 Autotest.created_two = (Returned tt, m')
    /\ handles m' !! 0 = None
    /\ (forall h, h <> 0 -> handles m' !! h = handles Autotest.created_two !! h)
    /\ (forall a, Some 0 = Some a -> frames m' !! a = None)
    /\ (forall a, Some 0 <> Some a ->
          frames m' !! a = frames Autotest.created_two !! a)
    /\ well_owned m'.
Proof.
  apply (X6_destructor_releases_exactly_its_frame Autotest.created_two 0 (Some 0)).
  - exact created_two_well_owned.
  - reflexivity.
Defined.

Lemma X7_witness :
  destructor 1
    (perform (map (operate (fun v => v) Autotest.ThrowRoutine Autotest.ThrowGenerator 1)
                [op_Do; op_Do; op_Get; op_Do])
       Autotest.created_two).2
  = (Returned tt, Autotest.created).
Proof.
  apply (X7_create_use_destroy_restores_the_memory 0%Z (fun v => v)
           Autotest.ThrowRoutine Autotest.ThrowGenerator 0
           [op_Do; op_Do; op_Get; op_Do] Autotest.created 1 Autotest.created_two).
  reflexivity.
Defined.

Lemma X8_witness :
  Pick (fun _ => 0%Z) 0 (calls (Do Autotest.StepRoutine 0) 2 Autotest.created).2
    = (AssertionFailed, (calls (Do Autotest.StepRoutine 0) 2 Autotest.created).2)
  /\ (Pick (fun _ => 0%Z) 0
        (calls (Do Autotest.StepRoutine 0) 3 Autotest.created).2).1 = Returned 7%Z
  /\ (Get 0 (Pick (fun _ => 0%Z) 0
               (calls (Do Autotest.StepRoutine 0) 3 Autotest.created).2).2).1
     = Returned 0%Z.
Proof.
  destruct (X8_Pick_takes_the_returned_value 0%Z (fun _ => 0%Z) Autotest.StepRoutine
              0 2 7%Z Autotest.empty_memory 0 Autotest.created)
    as [Hbefore Hafter].
  - simpl. reflexivity.
  - reflexivity.
  - split; [exact (Hbefore 2 (le_n 2))|].
    destruct (Hafter 3 (le_n 3)) as (Hv & _ & _ & _ & Hg). split; [exact Hv|exact Hg].
Defined.

Lemma X9_witness :
  (one_by_one
     (map (fun b : bool => if b then PickNext (fun _ => 0%Z) Autotest.SimpleGenerator 0
                           else Next Autotest.SimpleGenerator 0)
        [true; false; true; true; false])
     Autotest.created).1
  = (calls (Next Autotest.SimpleGenerator 0) 5 Autotest.created).1.
Proof.
  apply (X9_PickNext_and_Next_mix_freely (fun _ => 0%Z) Autotest.SimpleGenerator
           [true; false; true; true; false] Autotest.created 0 0 (initial_frame 0%Z 0)).
  exact created_owns.
Defined.

Lemma X10_witness :
  (exists a f,
     owns (calls (Do Autotest.ThrowRoutine 0) 1 Autotest.created).2 0 a f
     /\ Autotest.ThrowRoutine (pc f) = routine_throw "boom"
     /\ terminated (Do Autotest.ThrowRoutine 0
                      (calls (Do Autotest.ThrowRoutine 0) 1 Autotest.created).2).2 0)
  /\ terminated (Next (Autotest.RangeGenerator 0) 0 Autotest.created).2 0.
Proof.
  split.
  - destruct (X10_what_is_thrown (fun v => v) Autotest.ThrowRoutine Autotest.ThrowGenerator
                (calls (Do Autotest.ThrowRoutine 0) 1 Autotest.created).2 0
                (rethrow_exception "boom")) as (HDo & _).
    + exact (perform_operate_consistent (fun v => v) Autotest.ThrowRoutine
               Autotest.ThrowGenerator 0 [op_Do] Autotest.created created_consistent).
    + destruct (HDo eq_refl) as (a & f & e & Ho & _ & Hb & Hx & Ht).
      injection Hx as <-. exists a, f. auto.
  - destruct (X10_what_is_thrown (fun v => v) Autotest.ThrowRoutine
                (Autotest.RangeGenerator 0) Autotest.created 0 (Exc errmsg))
      as (_ & _ & _ & _ & _ & HNext & _).
    + exact created_consistent.
    + destruct (HNext eq_refl) as (a & f & _ & Ht & _). exact Ht.
Defined.

Lemma X11_witness :
  begin Autotest.SimpleGenerator 0 Autotest.created
    = (Returned {| gen := Some 0 |},
       set_frames <[0 := run Generator Autotest.SimpleGenerator (initial_frame 0%Z 0)]>
         Autotest.created)
  /\ (calls (deref {| gen := Some 0 |}) 3
        (set_frames <[0 := run Generator Autotest.SimpleGenerator (initial_frame 0%Z 0)]>
           Autotest.created)).1
     = [Returned 1%Z; Returned 1%Z; Returned 1%Z].
Proof.
  destruct (X11_iterator_after_begin_or_increment Autotest.SimpleGenerator
              Autotest.created 0 0 (initial_frame 0%Z 0)) as (Hb & _ & _ & Hd).
  - exact created_owns.
  - split; reflexivity.
  - split; [exact Hb|]. now rewrite (Hd 3).
Defined.

Lemma X12_witness :
  exists this m' m'',
    move_construct 0 Autotest.created = (Returned this, m')
    /\ move_assign 0 this m' = (Returned tt, m'')
    /\ owns m'' 0 0 (initial_frame 0%Z 0)
    /\ empty_handle m'' this
    /\ frames m'' = frames Autotest.created.
Proof.
  destruct (X12_moving_there_and_back Autotest.StepRoutine Autotest.SimpleGenerator
              Autotest.created 0 0 (initial_frame 0%Z 0) created_owns)
    as (this & m' & m'' & H1 & H2 & H3 & H4 & H5 & _).
  exists this, m', m''. auto.
Defined.

Lemma X14_witness :
  range_for (Autotest.RangeGenerator 4) 0 6 Autotest.created
  = as_range_for (drain_Next (Autotest.RangeGenerator 4) 0 6 Autotest.created)
  /\ (range_for (Autotest.RangeGenerator 4) 0 6 Autotest.created).1
     = ([0%Z; 1%Z; 2%Z; 3%Z], LoopEnded).
Proof.
  destruct (X14_range_for_agrees_with_Next_while_not_terminated
              (Autotest.RangeGenerator 4) 6 Autotest.created 0 0
              (initial_frame 0%Z 0)) as (Heq & _ & Hfin & _).
  - exact created_owns.
  - split; reflexivity.
  - split; [exact Heq|].
    apply (Hfin [0%Z; 1%Z; 2%Z; 3%Z]).
    + simpl. repeat split.
    + simpl. lia.
Defined.
